(** * surreal: the PPO model, the diagonal Gaussian, the torch broadcaster
      and the cartpole evaluation loop

    A shallow embedding of

    - [surreal/model/ppo_net.py]   ([DiagGauss], [PPOModel]),
    - [surreal/distributed/ps/torch_broadcaster.py] ([TorchBroadcaster]),
    - [surreal/main/run_cartpole_eval.py] (the evaluation loop),

    followed by the properties established about them.

    Numbers.  Tensor entries are modelled by the real numbers of the
    Standard Library: [np.log] is [ln], [exp] is [exp], [np.pi] is [PI] and
    [np.e] is [exp 1].  Rounding of IEEE floats is outside the model.

    Exceptions.  A Python call either returns a value or raises; this is
    the type [result], with the exception classes the sources can raise. *)

From Stdlib Require Import String Reals Lra Lia Arith Bool List.
Import ListNotations.

Set Implicit Arguments.

(* ================================================================== *)
(** * Part I: definitions                                              *)
(* ================================================================== *)

(** ** Python results *)

Module Py.

Inductive exn : Type :=
| ValueError (msg : string)
| AttributeError (attr : string)
| AssertionError
| IndexError
| RuntimeError
| TypeError.

Inductive result (A : Type) : Type :=
| Ok (a : A)
| Raise (e : exn).

Arguments Ok {A} a.
Arguments Raise {A} e.

Definition bind {A B : Type} (r : result A) (k : A -> result B) : result B :=
  match r with
  | Ok a => k a
  | Raise e => Raise e
  end.

Definition fmap {A B : Type} (f : A -> B) (r : result A) : result B :=
  bind r (fun a => Ok (f a)).

Definition raises {A : Type} (r : result A) : Prop :=
  exists e, r = Raise e.

Definition returns {A : Type} (r : result A) : Prop :=
  exists a, r = Ok a.

End Py.

Import Py.

Declare Scope py_scope.
Delimit Scope py_scope with py.
Notation "x <- c ;; k" := (Py.bind c (fun x => k))
  (at level 61, c at next level, right associativity) : py_scope.
Open Scope py_scope.

(** ** Tensors

    A tensor of rank 1, 2 or 3 is a nested list of entries, outermost axis
    first: a rank 2 tensor of shape [(n, k)] is a list of [n] rows of
    length [k]. *)

Module Tensor.

Open Scope R_scope.

Definition vec : Type := list R.
Definition mat : Type := list vec.
Definition cube : Type := list mat.

Inductive tensor : Type :=
| T1 (v : vec)
| T2 (m : mat)
| T3 (c : cube).

(** [len(t.size())], [len(t.shape)] *)
Definition ndim (t : tensor) : nat :=
  match t with
  | T1 _ => 1
  | T2 _ => 2
  | T3 _ => 3
  end.

(** The entries in row-major (storage) order. *)
Definition flat (t : tensor) : vec :=
  match t with
  | T1 v => v
  | T2 m => concat m
  | T3 c => concat (concat c)
  end.

(** [shape2 n k m]: [m] has shape [(n, k)]. *)
Definition shape2 (n k : nat) (m : mat) : Prop :=
  length m = n /\ Forall (fun r => length r = k) m.

(** [shape3 b t k c]: [c] has shape [(b, t, k)]. *)
Definition shape3 (b t k : nat) (c : cube) : Prop :=
  length c = b /\ Forall (shape2 t k) c.

(** The first [n] rows of [k] entries of a storage. *)
Fixpoint take_rows {A : Type} (n k : nat) (l : list A) : list (list A) :=
  match n with
  | O => []
  | S n' => firstn k l :: take_rows n' k (skipn k l)
  end.

(** [t.view(-1, k)] and numpy's [t.reshape(-1, k)]: the same storage read
    as rows of [k] entries.  Both raise when [k] is 0 (the free dimension
    is then undetermined or the size does not fit) and when the number of
    entries is not a multiple of [k]; [e] is the exception raised. *)
Definition rows_of (e : exn) (k : nat) (t : tensor) : result tensor :=
  if (k =? 0)%nat then Raise e
  else if (length (flat t) mod k =? 0)%nat
       then Ok (T2 (take_rows (length (flat t) / k) k (flat t)))
       else Raise e.

(** [t.view(b, t, k)]; [k] is [None] for [-1], the free last dimension.
    The storage must hold exactly [b * t * k] entries, and a free last
    dimension must be determined by it. *)
Definition view3 (b t : nat) (k : option nat) (x : tensor) : result tensor :=
  let n := length (flat x) in
  match k with
  | Some k =>
      if (n =? b * t * k)%nat
      then Ok (T3 (take_rows b t (take_rows (b * t) k (flat x))))
      else Raise RuntimeError
  | None =>
      if (b * t =? 0)%nat then Raise RuntimeError
      else if (n mod (b * t) =? 0)%nat
           then Ok (T3 (take_rows b t (take_rows (b * t) (n / (b * t)) (flat x))))
           else Raise RuntimeError
  end.

(** torch: [t.view(-1, k)] *)
Definition view (k : nat) (t : tensor) : result tensor :=
  rows_of RuntimeError k t.

(** numpy: [t.reshape(-1, k)] *)
Definition reshape (k : nat) (t : tensor) : result tensor :=
  rows_of (ValueError "cannot reshape array") k t.

(** [t[:, :d]]: the slice runs over the second axis.  A rank 1 tensor has
    no second axis. *)
Definition slice_to (d : nat) (t : tensor) : result tensor :=
  match t with
  | T1 _ => Raise IndexError
  | T2 m => Ok (T2 (map (firstn d) m))
  | T3 c => Ok (T3 (map (firstn d) c))
  end.

(** [t[:, d:]] *)
Definition slice_from (d : nat) (t : tensor) : result tensor :=
  match t with
  | T1 _ => Raise IndexError
  | T2 m => Ok (T2 (map (skipn d) m))
  | T3 c => Ok (T3 (map (skipn d) c))
  end.

(** [row[d]] for every row of a matrix; the index must exist. *)
Fixpoint column (d : nat) (m : mat) : result vec :=
  match m with
  | [] => Ok []
  | r :: m' =>
      match nth_error r d with
      | None => Raise IndexError
      | Some x => v <- column d m' ;; Ok (x :: v)
      end
  end.

(** [t[:, :, d]]: three indices need a rank 3 tensor; the result has
    rank 2. *)
Fixpoint index_last (d : nat) (c : cube) : result mat :=
  match c with
  | [] => Ok []
  | m :: c' =>
      v <- column d m ;;
      w <- index_last d c' ;;
      Ok (v :: w)
  end.

Definition index3 (d : nat) (t : tensor) : result tensor :=
  match t with
  | T3 c => fmap T2 (index_last d c)
  | _ => Raise IndexError
  end.

(** Entrywise unary operations ([.log()], [.exp()], [.pow(2)], and the
    operations with a Python scalar on one side). *)
Definition tmap (f : R -> R) (t : tensor) : tensor :=
  match t with
  | T1 v => T1 (map f v)
  | T2 m => T2 (map (map f) m)
  | T3 c => T3 (map (map (map f)) c)
  end.

(** Entrywise binary operations on operands of one shape.  PyTorch and
    numpy would also stretch an axis of size 1 and align tensors of
    different rank; such operands do not occur between a probability
    record and its actions and are reported as [RuntimeError] here, as
    are the shapes that PyTorch and numpy reject. *)
Fixpoint vzip (f : R -> R -> R) (u v : vec) : result vec :=
  match u, v with
  | [], [] => Ok []
  | x :: u', y :: v' => w <- vzip f u' v' ;; Ok (f x y :: w)
  | _, _ => Raise RuntimeError
  end.

Fixpoint mzip (f : R -> R -> R) (a b : mat) : result mat :=
  match a, b with
  | [], [] => Ok []
  | u :: a', v :: b' =>
      w <- vzip f u v ;;
      c <- mzip f a' b' ;;
      Ok (w :: c)
  | _, _ => Raise RuntimeError
  end.

Fixpoint czip (f : R -> R -> R) (a b : cube) : result cube :=
  match a, b with
  | [], [] => Ok []
  | u :: a', v :: b' =>
      w <- mzip f u v ;;
      c <- czip f a' b' ;;
      Ok (w :: c)
  | _, _ => Raise RuntimeError
  end.

Definition tzip (f : R -> R -> R) (s t : tensor) : result tensor :=
  match s, t with
  | T1 u, T1 v => fmap T1 (vzip f u v)
  | T2 a, T2 b => fmap T2 (mzip f a b)
  | T3 a, T3 b => fmap T3 (czip f a b)
  | _, _ => Raise RuntimeError
  end.

(** The entrywise combination of two vectors, without the shape check. *)
Definition zipw (f : R -> R -> R) (u v : vec) : vec :=
  map (fun p => f (fst p) (snd p)) (combine u v).

Definition vsum (v : vec) : R := fold_right Rplus 0 v.

(** Sum over axis 1 of a matrix whose rows are the entries along axis 2:
    the entrywise sum of the rows ([k] is the size of axis 2; nested
    lists do not record it when axis 1 is empty, see [row_width]). *)
Fixpoint rows_sum (k : nat) (m : mat) : vec :=
  match m with
  | [] => repeat 0 k
  | r :: m' => map (fun p => fst p + snd p) (combine r (rows_sum k m'))
  end.

Definition row_width (m : mat) : nat :=
  match m with
  | [] => 0%nat
  | r :: _ => length r
  end.

(** [t.sum(dim=1)]: axis 1 is summed away. *)
Definition sum_dim1 (t : tensor) : result tensor :=
  match t with
  | T1 _ => Raise IndexError
  | T2 m => Ok (T1 (map vsum m))
  | T3 c => Ok (T2 (map (fun m => rows_sum (row_width m) m) c))
  end.

(** [t.sum(dim=1, keepdim=True)]: axis 1 is kept with size 1. *)
Definition sum_dim1_keep (t : tensor) : result tensor :=
  match t with
  | T1 _ => Raise IndexError
  | T2 m => Ok (T2 (map (fun r => [vsum r]) m))
  | T3 c => Ok (T3 (map (fun m => [rows_sum (row_width m) m]) c))
  end.

(** [torch.clamp(t, min=lo)] *)
Definition clamp_min (lo : R) (t : tensor) : tensor :=
  tmap (fun x => if Rlt_dec x lo then lo else x) t.

(** [np.random.randn(n, d)]: [n * d] draws of the generator, in row-major
    order.  The generator is the stream of its draws. *)
Definition randn (stream : nat -> R) (n d : nat) : mat :=
  map (fun i => map (fun j => stream (i * d + j)%nat) (seq 0 d)) (seq 0 n).

(** [t.size()]; the sizes of the inner axes are read off the first
    row. *)
Definition size (t : tensor) : list nat :=
  match t with
  | T1 v => [length v]
  | T2 m => [length m; row_width m]
  | T3 c => [length c; match c with [] => 0%nat | m :: _ => length m end;
             match c with [] => 0%nat | m :: _ => row_width m end]
  end.

(** [shape[i]] *)
Definition dim (shape : list nat) (i : nat) : result nat :=
  match nth_error shape i with
  | Some n => Ok n
  | None => Raise IndexError
  end.

(** [t.shape[0]] *)
Definition shape0 (t : tensor) : nat :=
  match t with
  | T1 v => length v
  | T2 m => length m
  | T3 c => length c
  end.

End Tensor.

Import Tensor.

(** ** [DiagGauss] *)

Module DiagGauss.

Open Scope R_scope.

(** The attribute [self.d] is the first argument of every method. *)

(** [DiagGauss.loglikelihood] *)
Definition loglikelihood (d : nat) (a prob : tensor) : result tensor :=
  ap <- (if (ndim a =? 3)%nat
         then a' <- view d a ;; prob' <- view (2 * d) prob ;; Ok (a', prob')
         else Ok (a, prob)) ;;
  let a := fst ap in
  let prob := snd ap in
  mean0 <- slice_to d prob ;;
  std0 <- slice_from d prob ;;
  diff <- tzip Rminus a mean0 ;;
  z <- tzip Rdiv diff std0 ;;
  sq <- sum_dim1_keep (tmap (fun x => x ^ 2) z) ;;
  logs <- sum_dim1_keep (tmap ln std0) ;;
  tzip Rminus
    (tmap (fun x => x - 0.5 * ln (2.0 * PI) * INR d) (tmap (fun x => - 0.5 * x) sq))
    logs.

(** [DiagGauss.likelihood] *)
Definition likelihood (d : nat) (a prob : tensor) : result tensor :=
  l <- loglikelihood d a prob ;;
  Ok (clamp_min 1e-5 (tmap exp l)).

(** [DiagGauss.kl] *)
Definition kl (d : nat) (prob0 prob1 : tensor) : result tensor :=
  pp <- (if (ndim prob0 =? 3)%nat
         then p0 <- view (2 * d) prob0 ;; p1 <- view (2 * d) prob1 ;; Ok (p0, p1)
         else Ok (prob0, prob1)) ;;
  let prob0 := fst pp in
  let prob1 := snd pp in
  mean0 <- slice_to d prob0 ;;
  std0 <- slice_from d prob0 ;;
  mean1 <- slice_to d prob1 ;;
  std1 <- slice_from d prob1 ;;
  ratio <- tzip Rdiv std1 std0 ;;
  s1 <- sum_dim1 (tmap ln ratio) ;;
  dm <- tzip Rminus mean0 mean1 ;;
  num <- tzip Rplus (tmap (fun x => x ^ 2) std0) (tmap (fun x => x ^ 2) dm) ;;
  q <- tzip Rdiv num (tmap (fun x => 2.0 * x) (tmap (fun x => x ^ 2) std1)) ;;
  s2 <- sum_dim1 q ;;
  s <- tzip Rplus s1 s2 ;;
  Ok (tmap (fun x => x - 0.5 * INR d) s).

(** [DiagGauss.entropy] *)
Definition entropy (d : nat) (prob : tensor) : result tensor :=
  prob <- (if (ndim prob =? 3)%nat then view (2 * d) prob else Ok prob) ;;
  std_nd <- slice_from d prob ;;
  s <- sum_dim1 (tmap ln std_nd) ;;
  Ok (tmap (fun x => 0.5 * x + 0.5 * ln (2 * PI * exp 1) * INR d) s).

(** [DiagGauss.sample]; [stream] is the state of [np.random]. *)
Definition sample (stream : nat -> R) (d : nat) (prob : tensor) : result tensor :=
  prob <- (if (ndim prob =? 3)%nat then reshape (d * 2) prob else Ok prob) ;;
  mean_nd <- slice_to d prob ;;
  std_nd <- slice_from d prob ;;
  scaled <- tzip Rmult (T2 (randn stream (shape0 prob) d)) std_nd ;;
  tzip Rplus scaled mean_nd.

(** [DiagGauss.maxprob] *)
Definition maxprob (d : nat) (prob : tensor) : result tensor :=
  if (ndim prob =? 3)%nat then index3 d prob
  else slice_to d prob.

(** One row of the results, read off the method bodies above: [a] is a
    row of actions and [r], [r0], [r1] are rows of probability records. *)
Definition loglikelihood_row (d : nat) (a r : vec) : R :=
  - 0.5 * vsum (map (fun x => x ^ 2)
                    (zipw Rdiv (zipw Rminus a (firstn d r)) (skipn d r)))
  - 0.5 * ln (2.0 * PI) * INR d
  - vsum (map ln (skipn d r)).

Definition kl_row (d : nat) (r0 r1 : vec) : R :=
  vsum (map ln (zipw Rdiv (skipn d r1) (skipn d r0)))
  + vsum (zipw Rdiv
            (zipw Rplus (map (fun x => x ^ 2) (skipn d r0))
                        (map (fun x => x ^ 2)
                             (zipw Rminus (firstn d r0) (firstn d r1))))
            (map (fun x => 2.0 * x) (map (fun x => x ^ 2) (skipn d r1))))
  - 0.5 * INR d.

Definition entropy_row (d : nat) (r : vec) : R :=
  0.5 * vsum (map ln (skipn d r)) + 0.5 * ln (2 * PI * exp 1) * INR d.


(** The differential entropy of a Gaussian with independent coordinates,
    as the specification words it: [0.5 * log(std^2) + 0.5 * log(2 pi e)]
    summed over the coordinates.  [stds] are the standard deviations of
    one row. *)
Definition gaussian_entropy_spec (stds : vec) : R :=
  vsum (map (fun s => 0.5 * ln (s ^ 2) + 0.5 * ln (2 * PI * exp 1)) stds).

(** The Kullback-Leibler divergence of two rows as the specification words
    it: the sum over the coordinates of
    [log(std1/std0) + (std0^2 + (mean0-mean1)^2) / (2 std1^2) - 0.5].
    A row is given by its means and its standard deviations. *)
Fixpoint kl_spec (mean0 std0 mean1 std1 : vec) : R :=
  match mean0, std0, mean1, std1 with
  | m0 :: mean0', s0 :: std0', m1 :: mean1', s1 :: std1' =>
      (ln (s1 / s0) + (s0 ^ 2 + (m0 - m1) ^ 2) / (2 * s1 ^ 2) - 0.5)
      + kl_spec mean0' std0' mean1' std1'
  | _, _, _, _ => 0
  end.

(** A probability record of rank 2: [n] rows, each the [d] means followed
    by the [d] standard deviations, every standard deviation positive. *)
Definition valid_prob2 (d : nat) (p : mat) : Prop :=
  Forall (fun r => length r = (2 * d)%nat) p /\
  Forall (fun r => Forall (fun s => 0 < s) (skipn d r)) p.

(** The same for rank 3, of shape [(batch, time, 2d)]. *)
Definition valid_prob3 (d : nat) (c : cube) : Prop :=
  Forall (valid_prob2 d) c.

Definition valid_prob (d : nat) (p : tensor) : Prop :=
  match p with
  | T1 _ => False
  | T2 m => valid_prob2 d m
  | T3 c => valid_prob3 d c
  end.

(** The rows of a record once the time axis is merged into the batch
    axis. *)
Definition batch_rows (p : tensor) : mat :=
  match p with
  | T1 _ => []
  | T2 m => m
  | T3 c => concat c
  end.

(** The record whose rows are the given means followed by the given
    standard deviations. *)
Definition record_of (means_stds : list (vec * vec)) : mat :=
  map (fun ms => fst ms ++ snd ms) means_stds.

(** The result of [loglikelihood] on merged batch rows: one row of one
    entry for each action row and its record row. *)
Definition loglikelihood_table (d : nat) (a prob : tensor) : mat :=
  map (fun ar => [loglikelihood_row d (fst ar) (snd ar)])
      (combine (batch_rows a) (batch_rows prob)).

(** A batch of actions for a record: the same layout with [d] entries per
    row instead of [2d]. *)
Definition valid_actions (d : nat) (a prob : tensor) : Prop :=
  match a, prob with
  | T2 ma, T2 mp =>
      exists n, shape2 n d ma /\ shape2 n (2 * d) mp
  | T3 ca, T3 cp =>
      exists b t, shape3 b t d ca /\ shape3 b t (2 * d) cp
  | _, _ => False
  end.

End DiagGauss.

(** ** [PPOModel] *)

Module PPO.

Open Scope R_scope.

(** Modelled from the spec: the classes [ZFilter]
    (surreal/model/z_filter.py), [PPO_ActorNetwork], [PPO_CriticNetwork]
    (surreal/model/model_builders.py) and torch's [nn.LSTM] are not among
    the sources.  The specification describes an optional observation
    filter holding running mean/variance statistics, read-only during
    inference, whose update "updates running mean/variance"; and an
    optional recurrent stem "shared between actor and critic when
    enabled", feeding an actor head and a critic head.  Accordingly:

    - a filter is a state [ZFilter] with a forward pass that reads it and
      an update that replaces it; its state dict is its whole state;
    - the stem handed to both network constructors is a sub-module of both
      networks; a network is its own weights ([ActorHead], [CriticHead])
      together with that stem, and its forward pass may use both;
    - the fresh weights of a constructor are a function of the state
      [Seed] of torch's generator. *)
Class Networks : Type := {
  Seed : Type;
  LSTM : Type;
  Cells : Type;
  lstm_new : nat -> nat -> nat -> Seed -> LSTM;
  lstm_forward : LSTM -> tensor -> option Cells -> result (tensor * Cells);
  ActorHead : Type;
  actor_new : nat -> nat -> R -> Seed -> ActorHead;
  actor_forward : option LSTM -> ActorHead -> tensor -> result tensor;
  CriticHead : Type;
  critic_new : nat -> Seed -> CriticHead;
  critic_forward : option LSTM -> CriticHead -> tensor -> result tensor;
  ZFilter : Type;
  zfilter_new : nat -> bool -> ZFilter;
  zfilter_forward : ZFilter -> tensor -> result tensor;
  zfilter_z_update : tensor -> ZFilter -> ZFilter
}.

Record RNNConfig : Type := {
  if_rnn_policy : bool;
  rnn_hidden : nat;
  rnn_layer : nat
}.

Section Model.

Context {N : Networks}.

(** The attributes of a model.  [rnn_stem] is the one stem object that
    [self.rnn_stem], [self.actor] and [self.critic] refer to, [None] as in
    the source when the policy is not recurrent.  The attribute
    [z_filter] exists only when the constructor created it. *)
Record PPOModel : Type := {
  obs_dim : nat;
  action_dim : nat;
  use_z_filter : bool;
  init_log_sig : R;
  rnn_config : RNNConfig;
  rnn_stem : option LSTM;
  actor : ActorHead;
  critic : CriticHead;
  z_filter : option ZFilter
}.

Definition set_rnn_stem (w : option LSTM) (m : PPOModel) : PPOModel :=
  {| obs_dim := obs_dim m; action_dim := action_dim m;
     use_z_filter := use_z_filter m; init_log_sig := init_log_sig m;
     rnn_config := rnn_config m; rnn_stem := w; actor := actor m;
     critic := critic m; z_filter := z_filter m |}.

Definition set_actor (w : ActorHead) (m : PPOModel) : PPOModel :=
  {| obs_dim := obs_dim m; action_dim := action_dim m;
     use_z_filter := use_z_filter m; init_log_sig := init_log_sig m;
     rnn_config := rnn_config m; rnn_stem := rnn_stem m; actor := w;
     critic := critic m; z_filter := z_filter m |}.

Definition set_critic (w : CriticHead) (m : PPOModel) : PPOModel :=
  {| obs_dim := obs_dim m; action_dim := action_dim m;
     use_z_filter := use_z_filter m; init_log_sig := init_log_sig m;
     rnn_config := rnn_config m; rnn_stem := rnn_stem m; actor := actor m;
     critic := w; z_filter := z_filter m |}.

Definition set_z_filter (z : option ZFilter) (m : PPOModel) : PPOModel :=
  {| obs_dim := obs_dim m; action_dim := action_dim m;
     use_z_filter := use_z_filter m; init_log_sig := init_log_sig m;
     rnn_config := rnn_config m; rnn_stem := rnn_stem m; actor := actor m;
     critic := critic m; z_filter := z |}.

(** A method that mutates [self]: it returns or raises, and leaves the
    model in the state reached by then. *)
Definition method (A : Type) : Type := PPOModel -> result A * PPOModel.

Definition seq {A B : Type} (c : method A) (k : A -> method B) : method B :=
  fun self =>
    match c self with
    | (Ok a, self') => k a self'
    | (Raise e, self') => (Raise e, self')
    end.

Definition done : method unit := fun self => (Ok tt, self).

Definition throw {A : Type} (e : exn) : method A := fun self => (Raise e, self).

(** [PPOModel.__init__].  [use_cuda] only places the weights on a device. *)
Definition init (init_log_sig : R) (obs_dim action_dim : nat)
    (use_z_filter : bool) (rnn_config : RNNConfig) (use_cuda : bool)
    (seed : Seed) : PPOModel :=
  let rnn_stem :=
    if if_rnn_policy rnn_config
    then Some (lstm_new obs_dim (rnn_hidden rnn_config) (rnn_layer rnn_config) seed)
    else None in
  let input_size :=
    if if_rnn_policy rnn_config then rnn_hidden rnn_config else obs_dim in
  {| obs_dim := obs_dim; action_dim := action_dim;
     use_z_filter := use_z_filter; init_log_sig := init_log_sig;
     rnn_config := rnn_config; rnn_stem := rnn_stem;
     actor := actor_new input_size action_dim init_log_sig seed;
     critic := critic_new input_size seed;
     z_filter := if use_z_filter then Some (zfilter_new obs_dim use_cuda)
                 else None |}.

(** [net.actor.state_dict()]: the weights of the stem, when there is one,
    and of the head. *)
Definition actor_state_dict (net : PPOModel) : option LSTM * ActorHead :=
  (rnn_stem net, actor net).

Definition critic_state_dict (net : PPOModel) : option LSTM * CriticHead :=
  (rnn_stem net, critic net).

(** [self.actor.load_state_dict(sd)]: the entries are copied into the
    weights of the network, stem included; an entry without a weight or a
    weight without an entry raises.  (The sizes of the weights follow
    from the configuration.) *)
Definition actor_load_state_dict (sd : option LSTM * ActorHead) : method unit :=
  fun self =>
    match rnn_stem self, fst sd with
    | Some _, Some w => (Ok tt, set_actor (snd sd) (set_rnn_stem (Some w) self))
    | None, None => (Ok tt, set_actor (snd sd) self)
    | _, _ => (Raise RuntimeError, self)
    end.

Definition critic_load_state_dict (sd : option LSTM * CriticHead) : method unit :=
  fun self =>
    match rnn_stem self, fst sd with
    | Some _, Some w => (Ok tt, set_critic (snd sd) (set_rnn_stem (Some w) self))
    | None, None => (Ok tt, set_critic (snd sd) self)
    | _, _ => (Raise RuntimeError, self)
    end.

(** [m.z_filter]: the attribute may be missing. *)
Definition get_z_filter (m : PPOModel) : result ZFilter :=
  match z_filter m with
  | Some z => Ok z
  | None => Raise (AttributeError "z_filter")
  end.

(** [self.z_filter.load_state_dict(net.z_filter.state_dict())] *)
Definition z_filter_load_from (net : PPOModel) : method unit :=
  fun self =>
    match get_z_filter self with
    | Raise e => (Raise e, self)
    | Ok _ =>
        match get_z_filter net with
        | Raise e => (Raise e, self)
        | Ok z => (Ok tt, set_z_filter (Some z) self)
        end
    end.

(** [PPOModel.update_target_params] *)
Definition update_target_params (net : PPOModel) : method unit :=
  seq (actor_load_state_dict (actor_state_dict net)) (fun _ =>
  seq (critic_load_state_dict (critic_state_dict net)) (fun _ =>
  fun self =>
    if use_z_filter self then z_filter_load_from net self
    else done self)).

(** [PPOModel.update_target_z_filter] *)
Definition update_target_z_filter (net : PPOModel) : method unit :=
  fun self =>
    if use_z_filter self then z_filter_load_from net self
    else done self.

(** [self.rnn_stem(obs, cells)]: the attribute is [None] when the policy
    is not recurrent, and [None] cannot be called. *)
Definition call_rnn_stem (self : PPOModel) (obs : tensor)
    (cells : option Cells) : result (tensor * Cells) :=
  match rnn_stem self with
  | Some w => lstm_forward w obs cells
  | None => Raise TypeError
  end.

(** [PPOModel.forward_actor].  The pair [(obs, output_shape)] stands for
    the two variables of these names; [output_shape] is bound only in
    the recurrent case. *)
Definition forward_actor (self : PPOModel) (obs : tensor)
    (cells : option Cells) : result tensor :=
  obs <- (if use_z_filter self
          then z <- get_z_filter self ;; zfilter_forward z obs
          else Ok obs) ;;
  os <- (if if_rnn_policy (rnn_config self) then
           _ <- (if (ndim obs =? 3)%nat then Ok tt else Raise AssertionError) ;;
           oc <- call_rnn_stem self obs cells ;;
           let obs := fst oc in
           let output_shape := size obs in
           obs <- view (rnn_hidden (rnn_config self)) obs ;;
           Ok (obs, output_shape)
         else Ok (obs, [])) ;;
  let obs := fst os in
  let output_shape := snd os in
  action <- actor_forward (rnn_stem self) (actor self) obs ;;
  if if_rnn_policy (rnn_config self) then
    b <- dim output_shape 0 ;;
    t <- dim output_shape 1 ;;
    view3 b t None action
  else Ok action.

(** [PPOModel.forward_critic] *)
Definition forward_critic (self : PPOModel) (obs : tensor)
    (cells : option Cells) : result tensor :=
  obs <- (if use_z_filter self
          then z <- get_z_filter self ;; zfilter_forward z obs
          else Ok obs) ;;
  os <- (if if_rnn_policy (rnn_config self) then
           oc <- call_rnn_stem self obs cells ;;
           let obs := fst oc in
           let output_shape := size obs in
           obs <- view (rnn_hidden (rnn_config self)) obs ;;
           Ok (obs, output_shape)
         else Ok (obs, [])) ;;
  let obs := fst os in
  let output_shape := snd os in
  value <- critic_forward (rnn_stem self) (critic self) obs ;;
  if if_rnn_policy (rnn_config self) then
    b <- dim output_shape 0 ;;
    t <- dim output_shape 1 ;;
    view3 b t (Some 1%nat) value
  else Ok value.

(** [PPOModel.z_update] *)
Definition z_update (obs : tensor) : method unit :=
  fun self =>
    if use_z_filter self then
      match get_z_filter self with
      | Ok z => (Ok tt, set_z_filter (Some (zfilter_z_update obs z)) self)
      | Raise e => (Raise e, self)
      end
    else
      throw (ValueError "Z_update called when network is set to not use z_filter")
            self.

(** Two models have the same configuration: the hyperparameters that the
    constructor stores. *)
Definition same_config (a b : PPOModel) : Prop :=
  obs_dim a = obs_dim b /\ action_dim a = action_dim b /\
  use_z_filter a = use_z_filter b /\ init_log_sig a = init_log_sig b /\
  rnn_config a = rnn_config b.

Definition is_some {A : Type} (o : option A) : bool :=
  match o with
  | Some _ => true
  | None => false
  end.

(** What the constructor establishes and every method keeps: the filter
    exists exactly when [use_z_filter] is set, the stem exactly when the
    policy is recurrent. *)
Definition built (m : PPOModel) : Prop :=
  is_some (z_filter m) = use_z_filter m /\
  is_some (rnn_stem m) = if_rnn_policy (rnn_config m).

End Model.

(** A small instance, for examples: every weight is one number. *)
Definition toy_networks : Networks := {|
  Seed := nat;
  LSTM := R;
  Cells := unit;
  lstm_new := fun _ _ _ s => INR s;
  lstm_forward := fun w x _ => Ok (tmap (Rmult w) x, tt);
  ActorHead := R;
  actor_new := fun _ _ sig s => sig + INR s;
  actor_forward := fun _ w x => Ok (tmap (Rplus w) x);
  CriticHead := R;
  critic_new := fun _ s => INR s;
  critic_forward := fun _ w x => Ok (tmap (Rmult w) x);
  ZFilter := R;
  zfilter_new := fun _ _ => 0;
  zfilter_forward := fun z x => Ok (tmap (fun v => v - z) x);
  zfilter_z_update := fun _ z => z + 1
|}.

Definition toy_config : RNNConfig :=
  {| if_rnn_policy := true; rnn_hidden := 2; rnn_layer := 1 |}.

Definition toy_model (use_z_filter : bool) (seed : nat) : @PPOModel toy_networks :=
  @init toy_networks 0 3 1 use_z_filter toy_config false seed.

End PPO.

(** ** [TorchBroadcaster] *)

Module Broadcaster.

(** Modelled from the spec: [surreal.utils] ([U.Module], [U.assert_type],
    [U.binary_hash]) and the base class [Broadcaster]
    (surreal/distributed/ps/broadcaster.py) are not among the sources.
    Following the specification, a model "must support
    [parameters_to_binary() -> bytes]", the debug hash is "a deterministic
    content hash of the published blob", and the channel is "an opaque
    external service".  [TorchModule] are the Python objects that are
    instances of [U.Module], [Foreign] those that are not;
    [base_broadcast name binary message] is [Broadcaster.broadcast] of
    the base class acting on the state [Channel] of the redis client. *)
Class Runtime : Type := {
  TorchModule : Type;
  Foreign : Type;
  Binary : Type;
  Message : Type;
  parameters_to_binary : TorchModule -> Binary;
  binary_hash : Binary -> string;
  str : Message -> string;
  Channel : Type;
  base_broadcast : string -> Binary -> Message -> Channel -> result unit * Channel
}.

Section Broadcast.

Context {RT : Runtime}.

(** A Python object passed as [net]. *)
Inductive pyobj : Type :=
| IsModule (m : TorchModule)
| NotModule (o : Foreign).

(** Modelled from the spec: [U.assert_type(net, U.Module)] is not among
    the sources; a model lacking the capability "is a precondition
    failure, signaled immediately and fatally". *)
Definition assert_type_Module (net : pyobj) : result TorchModule :=
  match net with
  | IsModule m => Ok m
  | NotModule _ => Raise AssertionError
  end.

(** What the process acts on: the redis client and the standard output. *)
Record world : Type := {
  redis : Channel;
  stdout : list (list string)
}.

(** The attributes of a [TorchBroadcaster]. *)
Record TorchBroadcaster : Type := {
  name : string;
  _debug : bool
}.

(** [TorchBroadcaster.__init__], with the defaults [name='ps'] and
    [debug=False] as [None]. *)
Definition init (name : option string) (debug : option bool) : TorchBroadcaster :=
  {| name := match name with Some n => n | None => "ps"%string end;
     _debug := match debug with Some b => b | None => false end |}.

(** [print(...)]: one line of output, given by its arguments. *)
Definition print (args : list string) (w : world) : world :=
  {| redis := redis w; stdout := stdout w ++ [args] |}.

(** The same broadcaster with the debug flag as given. *)
Definition with_debug (b : bool) (self : TorchBroadcaster) : TorchBroadcaster :=
  {| name := name self; _debug := b |}.

(** [TorchBroadcaster.broadcast] *)
Definition broadcast (self : TorchBroadcaster) (net : pyobj)
    (message : Message) (w : world) : result unit * world :=
  match assert_type_Module net with
  | Raise e => (Raise e, w)
  | Ok m =>
      let binary := parameters_to_binary m in
      let w :=
        if _debug self
        then print ["BROADCAST"; str message; "BINARY_HASH"; binary_hash binary]%string w
        else w in
      let rc := base_broadcast (name self) binary message (redis w) in
      (fst rc, {| redis := snd rc; stdout := stdout w |})
  end.

End Broadcast.

(** Modelled from the spec: a channel that keeps what was published, in
    order, each entry "[(binary, message)] ... under the broadcaster's
    channel name"; subscribers "see only the latest state". *)
Definition log_runtime (B M : Type) (hash : B -> string) (show : M -> string)
  : Runtime := {|
  TorchModule := B;
  Foreign := unit;
  Binary := B;
  Message := M;
  parameters_to_binary := fun b => b;
  binary_hash := hash;
  str := show;
  Channel := list (string * (B * M));
  base_broadcast := fun name binary message c =>
                      (Ok tt, c ++ [(name, (binary, message))])
|}.

End Broadcaster.

(** ** The evaluation loop of [run_cartpole_eval.py] *)

Module EvalLoop.

(** Modelled from the spec: the agent ([QAgent]), the environment
    ([GymAdapter], [TensorplexMonitor]) and [U.to_float_tensor] are not
    among the sources.  The environment "exposes [reset() ->
    (observation, info)] and [step(action) -> (observation, reward, done,
    info)]"; pulling parameters copies "the latest parameters from the
    broadcaster into the local model".  [World] is everything these calls
    act on: the agent, the environment and the parameter server. *)
Class Collaborators : Type := {
  World : Type;
  Obs : Type;
  FloatTensor : Type;
  Action : Type;
  Info : Type;
  pull_parameters : World -> World;
  env_reset : World -> (Obs * Info) * World;
  to_float_tensor : Obs -> FloatTensor;
  act : FloatTensor -> World -> Action * World;
  env_step : Action -> World -> (Obs * R * bool * Info) * World
}.

(** The calls the loop makes, as seen from outside. *)
Inductive event : Type :=
| Pull
| Reset
| Act
| Step (done : bool).

(** The statement about to run, by its line in the file. *)
Inductive line : Type :=
| L31   (* q_agent.pull_parameters() *)
| L32   (* obs, info = env.reset() *)
| L34   (* action = q_agent.act(U.to_float_tensor(obs)) *)
| L35   (* obs, reward, done, info = env.step(action) *)
| L36   (* if done: *)
| L37   (* q_agent.pull_parameters() *)
| L38.  (* obs, info = env.reset() *)

Section Loop.

Context {C : Collaborators}.

(** The program state: the line, the world, the variables bound so far
    and the calls made so far, latest first. *)
Record state : Type := {
  pc : line;
  world : World;
  obs : option Obs;
  info : option Info;
  action : option Action;
  reward : option R;
  done : option bool;
  history : list event
}.

Definition initial (w : World) : state :=
  {| pc := L31; world := w; obs := None; info := None; action := None;
     reward := None; done := None; history := [] |}.

(** [q_agent.pull_parameters()], then on to line [next]. *)
Definition do_pull (next : line) (s : state) : state :=
  {| pc := next; world := pull_parameters (world s);
     obs := obs s; info := info s; action := action s;
     reward := reward s; done := done s;
     history := Pull :: history s |}.

(** [obs, info = env.reset()], then on to line 34. *)
Definition do_reset (s : state) : state :=
  let r := env_reset (world s) in
  {| pc := L34; world := snd r;
     obs := Some (fst (fst r)); info := Some (snd (fst r));
     action := action s; reward := reward s; done := done s;
     history := Reset :: history s |}.

(** One statement.  A variable read before it is bound would raise
    [NameError]; the program then stops, which is [None]. *)
Definition exec (s : state) : option state :=
  match pc s with
  | L31 => Some (do_pull L32 s)
  | L32 => Some (do_reset s)
  | L34 =>
      match obs s with
      | None => None
      | Some o =>
          let r := act (to_float_tensor o) (world s) in
          Some {| pc := L35; world := snd r;
                  obs := obs s; info := info s; action := Some (fst r);
                  reward := reward s; done := done s;
                  history := Act :: history s |}
      end
  | L35 =>
      match action s with
      | None => None
      | Some a =>
          let r := env_step a (world s) in
          let '(o, rew, d, i) := fst r in
          Some {| pc := L36; world := snd r;
                  obs := Some o; info := Some i; action := action s;
                  reward := Some rew; done := Some d;
                  history := Step d :: history s |}
      end
  | L36 =>
      match done s with
      | None => None
      | Some d =>
          Some {| pc := if d then L37 else L34; world := world s;
                  obs := obs s; info := info s; action := action s;
                  reward := reward s; done := done s;
                  history := history s |}
      end
  | L37 => Some (do_pull L38 s)
  | L38 => Some (do_reset s)
  end.

(** [n] statements from [s]; the state where the program stopped, if it
    did. *)
Fixpoint run (n : nat) (s : state) : state :=
  match n with
  | O => s
  | S n' =>
      match exec s with
      | Some s' => run n' s'
      | None => s
      end
  end.

(** The calls made in the first [n] statements of the program, in the
    order they were made. *)
Definition trace (n : nat) (w : World) : list event :=
  rev (history (run n (initial w))).

(** Requirements on a history (latest call first):
    a reset comes right after a pull; what comes right after a step that
    returned [done = True] is a pull, and what comes after that is a
    reset; the earliest call is a pull. *)
Definition safe (h : list event) : Prop :=
  (forall pre post, h = pre ++ Reset :: post -> exists post', post = Pull :: post')
  /\ (forall pre y post, h = pre ++ y :: Step true :: post -> y = Pull)
  /\ (forall pre x y post, h = pre ++ x :: y :: Step true :: post -> x = Reset)
  /\ (h = [] \/ exists pre, h = pre ++ [Pull]).

(** How the line about to run, the bound variables and the latest calls
    go together. *)
Definition coupled (s : state) : Prop :=
  match pc s with
  | L31 => history s = []
  | L32 => history s = [Pull]
  | L34 => obs s <> None
           /\ exists h, history s = Reset :: h \/ history s = Step false :: h
  | L35 => action s <> None /\ exists h, history s = Act :: h
  | L36 => obs s <> None
           /\ exists d h, done s = Some d /\ history s = Step d :: h
  | L37 => exists h, history s = Step true :: h
  | L38 => exists h, history s = Pull :: Step true :: h
  end.

Definition invariant (s : state) : Prop := coupled s /\ safe (history s).

End Loop.

(** A small instance, for examples: the world counts the steps of the
    episode, which ends at the third. *)
Definition toy_collaborators : Collaborators := {|
  World := nat;
  Obs := nat;
  FloatTensor := nat;
  Action := nat;
  Info := unit;
  pull_parameters := fun w => w;
  env_reset := fun _ => ((0%nat, tt), 0%nat);
  to_float_tensor := fun o => o;
  act := fun o w => (o, w);
  env_step := fun a w => ((S w, 1%R, (2 <=? w)%nat, tt), S w)
|}.

End EvalLoop.

(** ** The density of a diagonal Gaussian *)

Module Gaussian.

Open Scope R_scope.

(** The density of the normal distribution of mean [m] and standard
    deviation [s] at [x]. *)
Definition normal_pdf (m s x : R) : R :=
  / (s * sqrt (2 * PI)) * exp (- (((x - m) / s) ^ 2) / 2).

(** The density at [a] of independent normal coordinates with means [m]
    and standard deviations [s]: the product of the densities of the
    coordinates. *)
Fixpoint density (a m s : vec) : R :=
  match a, m, s with
  | x :: a', mu :: m', sd :: s' => normal_pdf mu sd x * density a' m' s'
  | _, _, _ => 1
  end.

End Gaussian.

(** ** [PPOModel.forward_actor_expose_cells] *)

Module PPOMore.

Import PPO.

Section More.

Context {N : Networks}.

(** [PPOModel.forward_actor_expose_cells].  The pair [(obs, cells)]
    stands for the two variables of these names.  The statement
    [cells = (Variable(cells[0].data), Variable(cells[1].data))] rebuilds
    the state of the stem from its own data: the values are the same,
    and the computation history it cuts is outside the model. *)
Definition forward_actor_expose_cells (self : PPOModel) (obs : tensor)
    (cells : option Cells) : result (tensor * option Cells) :=
  obs <- (if use_z_filter self
          then z <- get_z_filter self ;; zfilter_forward z obs
          else Ok obs) ;;
  oc <- (if if_rnn_policy (rnn_config self) then
           obs <- view3 1 1 None obs ;;
           r <- call_rnn_stem self obs cells ;;
           let obs := fst r in
           let cells := Some (snd r) in
           obs <- view (rnn_hidden (rnn_config self)) obs ;;
           Ok (obs, cells)
         else Ok (obs, cells)) ;;
  let obs := fst oc in
  let cells := snd oc in
  action <- actor_forward (rnn_stem self) (actor self) obs ;;
  Ok (action, cells).

End More.

Definition toy_flat_config : RNNConfig :=
  {| if_rnn_policy := false; rnn_hidden := 2; rnn_layer := 1 |}.

(** A feed-forward model of the small instance. *)
Definition toy_flat_model (use_z_filter : bool) (seed : nat)
  : @PPOModel toy_networks :=
  @init toy_networks 0 3 1 use_z_filter toy_flat_config false seed.

End PPOMore.

(** ** Counting the calls of the evaluation loop *)

Module EvalLoopMore.

Import EvalLoop.
#[local] Open Scope nat_scope.

Definition is_pull (e : event) : bool :=
  match e with Pull => true | _ => false end.

Definition is_reset (e : event) : bool :=
  match e with Reset => true | _ => false end.

Definition is_act (e : event) : bool :=
  match e with Act => true | _ => false end.

Definition is_step (e : event) : bool :=
  match e with Step _ => true | _ => false end.

Definition is_last_step (e : event) : bool :=
  match e with Step true => true | _ => false end.

(** The number of calls of one kind in a list of calls. *)
Definition calls (kind : event -> bool) (h : list event) : nat :=
  length (filter kind h).

(** Requirements on a history (latest call first): the agent acts right
    after a reset or after a step that did not end the episode, and the
    environment steps right after the agent acted. *)
Definition in_turns (h : list event) : Prop :=
  (forall pre post, h = pre ++ Act :: post ->
     exists post', post = Reset :: post' \/ post = Step false :: post')
  /\ (forall pre d post, h = pre ++ Step d :: post ->
        exists post', post = Act :: post').

Section Tally.

Context {C : Collaborators}.

(** How the numbers of calls made so far go together at each line. *)
Definition tallied (s : state) : Prop :=
  let h := history s in
  let p := calls is_pull h in
  let r := calls is_reset h in
  let a := calls is_act h in
  let t := calls is_step h in
  let l := calls is_last_step h in
  match pc s with
  | L31 => p = 0 /\ r = 0 /\ a = 0 /\ t = 0 /\ l = 0
  | L32 => p = 1 /\ r = 0 /\ a = 0 /\ t = 0 /\ l = 0
  | L34 => p = l + 1 /\ r = p /\ a = t
  | L35 => p = l + 1 /\ r = p /\ a = t + 1
  | L36 => a = t /\ exists d, done s = Some d
                     /\ if d then p = l /\ r = l else p = l + 1 /\ r = p
  | L37 => p = l /\ r = l /\ a = t
  | L38 => p = l + 1 /\ r = l /\ a = t
  end.

End Tally.

End EvalLoopMore.

(* ================================================================== *)
(** * Part II: properties                                              *)
(* ================================================================== *)

(** ** Tensor operations on well-shaped operands *)

Module TensorFacts.

Open Scope R_scope.

Lemma bind_ok {A B : Type} (a : A) (k : A -> result B) :
  Py.bind (Ok a) k = k a.
Proof. reflexivity. Qed.

Lemma length_concat_rows (k : nat) (rows : mat) :
  Forall (fun r => length r = k) rows ->
  length (concat rows) = (length rows * k)%nat.
Proof.
  induction 1 as [|r rows Hr _ IH]; [reflexivity|].
  simpl. rewrite length_app, IH, Hr. reflexivity.
Qed.

Lemma take_rows_concat (k : nat) (rows : mat) :
  Forall (fun r => length r = k) rows ->
  take_rows (length rows) k (concat rows) = rows.
Proof.
  induction 1 as [|r rows Hr _ IH]; [reflexivity|].
  simpl. subst k.
  rewrite firstn_app, skipn_app, Nat.sub_diag, firstn_all, skipn_all.
  simpl. rewrite app_nil_r, IH. reflexivity.
Qed.

(** Reading a rank 3 tensor of shape [(b, t, k)] as rows of [k] entries
    puts the rows of its [b] matrices one after the other. *)
Lemma rows_of_cube (e : exn) (k : nat) (c : cube) :
  (0 < k)%nat ->
  Forall (Forall (fun r => length r = k)) c ->
  rows_of e k (T3 c) = Ok (T2 (concat c)).
Proof.
  intros Hk Hc. unfold rows_of.
  assert (Hrows : Forall (fun r => length r = k) (concat c)).
  { induction Hc as [|m c Hm _ IH]; simpl; [constructor|].
    apply Forall_app. split; assumption. }
  destruct (Nat.eqb_spec k 0) as [->|_]; [lia|].
  simpl flat. rewrite (length_concat_rows Hrows), Nat.Div0.mod_mul.
  rewrite Nat.div_mul by lia.
  simpl. rewrite take_rows_concat; trivial.
Qed.

Lemma vzip_ok (f : R -> R -> R) (u v : vec) :
  length u = length v -> vzip f u v = Ok (zipw f u v).
Proof.
  revert v. induction u as [|x u IH]; intros [|y v] H; simpl in H; try lia.
  - reflexivity.
  - simpl. rewrite IH by lia. reflexivity.
Qed.

Lemma length_zipw (f : R -> R -> R) (u v : vec) :
  length (zipw f u v) = Nat.min (length u) (length v).
Proof. unfold zipw. rewrite length_map, length_combine. reflexivity. Qed.

(** Matrices given row by row over one index list. *)
Lemma mzip_map {X : Type} (f : R -> R -> R) (g h : X -> vec) (l : list X) :
  Forall (fun x => length (g x) = length (h x)) l ->
  mzip f (map g l) (map h l) = Ok (map (fun x => zipw f (g x) (h x)) l).
Proof.
  induction 1 as [|x l Hx _ IH]; [reflexivity|].
  simpl. rewrite (vzip_ok f _ _ Hx), IH. reflexivity.
Qed.

Lemma vzip_map {X : Type} (f : R -> R -> R) (g h : X -> R) (l : list X) :
  vzip f (map g l) (map h l) = Ok (map (fun x => f (g x) (h x)) l).
Proof.
  induction l as [|x l IH]; [reflexivity|].
  simpl. rewrite IH. reflexivity.
Qed.

Lemma clamp_is_Rmax (lo x : R) :
  (if Rlt_dec x lo then lo else x) = Rmax x lo.
Proof.
  unfold Rmax. destruct (Rlt_dec x lo) as [H|H], (Rle_dec x lo) as [H'|H'];
    trivial; lra.
Qed.

Lemma tmap_tmap (f g : R -> R) (t : tensor) :
  tmap f (tmap g t) = tmap (fun x => f (g x)) t.
Proof.
  destruct t as [v|m|c]; simpl; f_equal.
  - apply map_map.
  - rewrite map_map. apply map_ext. intros r. apply map_map.
  - rewrite map_map. apply map_ext. intros m.
    rewrite map_map. apply map_ext. intros r. apply map_map.
Qed.

Lemma tmap_ext (f g : R -> R) (t : tensor) :
  (forall x, f x = g x) -> tmap f t = tmap g t.
Proof.
  intros H. destruct t as [v|m|c]; simpl; f_equal.
  - apply map_ext, H.
  - apply map_ext. intros r. apply map_ext, H.
  - apply map_ext. intros m. apply map_ext. intros r. apply map_ext, H.
Qed.

End TensorFacts.

(** ** [DiagGauss] *)

Module DiagGaussFacts.

Import TensorFacts DiagGauss.
Open Scope R_scope.

#[local] Arguments pow : simpl never.
#[local] Arguments Nat.mul : simpl never.
#[local] Arguments INR : simpl never.

Lemma two_point_zero : 2.0 = 2.
Proof. lra. Qed.

Lemma half_is_inv2 : 0.5 = / 2.
Proof. lra. Qed.

Lemma map_fst_combine {X Y : Type} (l : list X) (l' : list Y) :
  length l = length l' -> map fst (combine l l') = l.
Proof.
  revert l'. induction l as [|x l IH]; intros [|y l'] H; simpl in *; try lia.
  - reflexivity.
  - f_equal. apply IH. lia.
Qed.

Lemma map_snd_combine {X Y : Type} (l : list X) (l' : list Y) :
  length l = length l' -> map snd (combine l l') = l'.
Proof.
  revert l'. induction l as [|x l IH]; intros [|y l'] H; simpl in *; try lia.
  - reflexivity.
  - f_equal. apply IH. lia.
Qed.

(** *** The methods on rank 2 operands, row by row *)

Lemma entropy_rows (d : nat) (p : mat) :
  entropy d (T2 p) = Ok (T1 (map (entropy_row d) p)).
Proof.
  unfold entropy. simpl. rewrite !map_map. reflexivity.
Qed.

(** Side conditions on row lengths, from a hypothesis [Hl] on the rows. *)
Ltac row_lengths Hl :=
  eapply Forall_impl; [|exact Hl];
  let x := fresh "x" in
  intros x; simpl; intros [? ?];
  repeat (rewrite length_map || rewrite length_zipw
          || rewrite length_firstn || rewrite length_skipn);
  lia.

(** Running a method body on matrices given row by row. *)
Ltac run_rows Hl :=
  unfold fmap;
  repeat first
    [ rewrite bind_ok
    | rewrite map_map
    | rewrite mzip_map by (row_lengths Hl)
    | rewrite vzip_map
    | progress simpl ].

Lemma kl_rows {X : Type} (d : nat) (g0 g1 : X -> vec) (l : list X) :
  Forall (fun x => length (g0 x) = (2 * d)%nat /\ length (g1 x) = (2 * d)%nat) l ->
  kl d (T2 (map g0 l)) (T2 (map g1 l))
  = Ok (T1 (map (fun x => kl_row d (g0 x) (g1 x)) l)).
Proof.
  intros Hl. unfold kl. run_rows Hl. reflexivity.
Qed.

Lemma loglikelihood_rows {X : Type} (d : nat) (ga gp : X -> vec) (l : list X) :
  Forall (fun x => length (ga x) = d /\ length (gp x) = (2 * d)%nat) l ->
  loglikelihood d (T2 (map ga l)) (T2 (map gp l))
  = Ok (T2 (map (fun x => [loglikelihood_row d (ga x) (gp x)]) l)).
Proof.
  intros Hl. unfold loglikelihood. run_rows Hl. reflexivity.
Qed.


(** *** Rank 3 operands

    The methods that reshape first agree, on a record of shape
    [(batch, time, 2d)], with their run on the reshaped record of shape
    [(batch * time, 2d)]. *)

Lemma valid_prob3_rows (d : nat) (c : cube) :
  valid_prob3 d c -> Forall (Forall (fun r => length r = (2 * d)%nat)) c.
Proof.
  intros H. eapply Forall_impl; [|exact H]. intros m [Hm _]. exact Hm.
Qed.

Lemma valid_prob3_concat (d : nat) (c : cube) :
  valid_prob3 d c -> valid_prob2 d (concat c).
Proof.
  induction 1 as [|m c [Hm Hs] _ [IHm IHs]]; simpl.
  - split; constructor.
  - split; apply Forall_app; split; assumption.
Qed.

Lemma entropy_3d_as_2d (d : nat) (c : cube) :
  (0 < d)%nat -> valid_prob3 d c ->
  entropy d (T3 c) = entropy d (T2 (concat c)).
Proof.
  intros Hd Hc. unfold entropy, view. simpl ndim. simpl Nat.eqb.
  rewrite rows_of_cube; [reflexivity | lia | apply valid_prob3_rows, Hc].
Qed.

Lemma kl_3d_as_2d (d : nat) (c0 c1 : cube) :
  (0 < d)%nat -> valid_prob3 d c0 -> valid_prob3 d c1 ->
  kl d (T3 c0) (T3 c1) = kl d (T2 (concat c0)) (T2 (concat c1)).
Proof.
  intros Hd H0 H1. unfold kl, view. simpl ndim. simpl Nat.eqb.
  rewrite !rows_of_cube; [reflexivity | lia | apply valid_prob3_rows, H1
                         | lia | apply valid_prob3_rows, H0].
Qed.

Lemma shape3_rows (b t k : nat) (c : cube) :
  shape3 b t k c -> Forall (Forall (fun r => length r = k)) c.
Proof.
  intros [_ H]. eapply Forall_impl; [|exact H]. intros m [_ Hm]. exact Hm.
Qed.

Lemma loglikelihood_3d_as_2d (d b t : nat) (ca cp : cube) :
  (0 < d)%nat -> shape3 b t d ca -> shape3 b t (2 * d) cp ->
  loglikelihood d (T3 ca) (T3 cp)
  = loglikelihood d (T2 (concat ca)) (T2 (concat cp)).
Proof.
  intros Hd Ha Hp. unfold loglikelihood, view. simpl ndim. simpl Nat.eqb.
  rewrite (rows_of_cube _ Hd (shape3_rows Ha)).
  rewrite rows_of_cube; [reflexivity | lia | apply (shape3_rows Hp)].
Qed.

Lemma likelihood_3d_as_2d (d b t : nat) (ca cp : cube) :
  (0 < d)%nat -> shape3 b t d ca -> shape3 b t (2 * d) cp ->
  likelihood d (T3 ca) (T3 cp)
  = likelihood d (T2 (concat ca)) (T2 (concat cp)).
Proof.
  intros Hd Ha Hp. unfold likelihood.
  rewrite (loglikelihood_3d_as_2d Hd Ha Hp). reflexivity.
Qed.

Lemma sample_3d_as_2d (stream : nat -> R) (d : nat) (c : cube) :
  (0 < d)%nat -> valid_prob3 d c ->
  sample stream d (T3 c) = sample stream d (T2 (concat c)).
Proof.
  intros Hd Hc. unfold sample, reshape. simpl ndim. simpl Nat.eqb.
  rewrite rows_of_cube; [reflexivity | lia |].
  rewrite Nat.mul_comm. apply valid_prob3_rows, Hc.
Qed.

(** *** The closed forms *)

Lemma kl_parts_spec (s0 : vec) : forall m0 m1 s1 : vec,
  length m0 = length s0 -> length m1 = length s0 -> length s1 = length s0 ->
  vsum (map ln (zipw Rdiv s1 s0))
  + vsum (zipw Rdiv
            (zipw Rplus (map (fun x => x ^ 2) s0)
                        (map (fun x => x ^ 2) (zipw Rminus m0 m1)))
            (map (fun x => 2.0 * x) (map (fun x => x ^ 2) s1)))
  - 0.5 * INR (length s0)
  = kl_spec m0 s0 m1 s1.
Proof.
  induction s0 as [|x0 s0 IH]; intros [|a0 m0] [|a1 m1] [|x1 s1] H0 H1 H2;
    simpl in H0, H1, H2; try discriminate.
  - unfold INR. simpl. lra.
  - specialize (IH m0 m1 s1 ltac:(lia) ltac:(lia) ltac:(lia)).
    cbn [kl_spec]. rewrite <- IH.
    cbn [zipw combine map fst snd vsum fold_right length].
    fold (zipw Rdiv s1 s0). fold (zipw Rminus m0 m1).
    fold (zipw Rplus (map (fun x => x ^ 2) s0)
                     (map (fun x => x ^ 2) (zipw Rminus m0 m1))).
    fold (zipw Rdiv
            (zipw Rplus (map (fun x => x ^ 2) s0)
                        (map (fun x => x ^ 2) (zipw Rminus m0 m1)))
            (map (fun x => 2.0 * x) (map (fun x => x ^ 2) s1))).
    fold (vsum (map ln (zipw Rdiv s1 s0))).
    fold (vsum (zipw Rdiv
            (zipw Rplus (map (fun x => x ^ 2) s0)
                        (map (fun x => x ^ 2) (zipw Rminus m0 m1)))
            (map (fun x => 2.0 * x) (map (fun x => x ^ 2) s1)))).
    rewrite S_INR, two_point_zero. lra.
Qed.

(** One row of [kl] is the closed form of the specification. *)
Lemma kl_row_spec (d : nat) (r0 r1 : vec) :
  length r0 = (2 * d)%nat -> length r1 = (2 * d)%nat ->
  kl_row d r0 r1
  = kl_spec (firstn d r0) (skipn d r0) (firstn d r1) (skipn d r1).
Proof.
  intros H0 H1. unfold kl_row.
  assert (Hs : length (skipn d r0) = d) by (rewrite length_skipn; lia).
  rewrite <- kl_parts_spec.
  - rewrite Hs. reflexivity.
  - rewrite length_firstn; lia.
  - rewrite length_firstn; lia.
  - rewrite !length_skipn; lia.
Qed.

Lemma kl_spec_self (s : vec) : forall m : vec,
  length m = length s -> Forall (fun x => 0 < x) s -> kl_spec m s m s = 0.
Proof.
  induction s as [|x s IH]; intros [|a m] Hm Hs; simpl in Hm; try discriminate.
  - reflexivity.
  - inversion Hs as [|? ? Hx Hs']; subst.
    cbn [kl_spec]. rewrite IH by (trivial; lia).
    replace (x / x) with 1 by (field; lra).
    rewrite ln_1, half_is_inv2. field. lra.
Qed.

Lemma gaussian_entropy_spec_sum (stds : vec) :
  Forall (fun x => 0 < x) stds ->
  gaussian_entropy_spec stds
  = vsum (map ln stds) + 0.5 * ln (2 * PI * exp 1) * INR (length stds).
Proof.
  unfold gaussian_entropy_spec.
  induction 1 as [|x stds Hx _ IH].
  - unfold INR. simpl. lra.
  - cbn [map vsum fold_right length].
    fold (vsum (map (fun s => 0.5 * ln (s ^ 2) + 0.5 * ln (2 * PI * exp 1)) stds)).
    fold (vsum (map ln stds)).
    rewrite IH, S_INR, (ln_pow x Hx 2).
    change (INR 2) with (1 + 1). lra.
Qed.

(** What [entropy] returns for a row falls short of the closed form by
    half the sum of the logarithms of the standard deviations. *)
Lemma entropy_row_gap (d : nat) (r : vec) :
  length r = (2 * d)%nat -> Forall (fun x => 0 < x) (skipn d r) ->
  gaussian_entropy_spec (skipn d r) - entropy_row d r
  = 0.5 * vsum (map ln (skipn d r)).
Proof.
  intros Hr Hs. rewrite (gaussian_entropy_spec_sum Hs).
  unfold entropy_row. rewrite length_skipn, Hr.
  replace (2 * d - d)%nat with d by lia. lra.
Qed.

(** *** The claims about [DiagGauss] *)

(** C1 (the code departs from the claim).  At action dimension 1 and the
    record [[0, 2]] (mean 0, standard deviation 2), [entropy] returns
    [0.5 * log 2 + 0.5 * log(2 pi e)], whereas the closed form of the
    differential entropy is [log 2 + 0.5 * log(2 pi e)]: the method
    halves the sum of [log std] although that sum already is
    [0.5 * log(std^2)]. *)
Theorem entropy_misses_closed_form :
  entropy 1 (T2 [[0; 2]]) = Ok (T1 [0.5 * ln 2 + 0.5 * ln (2 * PI * exp 1)])
  /\ gaussian_entropy_spec [2] = ln 2 + 0.5 * ln (2 * PI * exp 1)
  /\ 0.5 * ln 2 + 0.5 * ln (2 * PI * exp 1) <> gaussian_entropy_spec [2].
Proof.
  assert (Hspec : gaussian_entropy_spec [2] = ln 2 + 0.5 * ln (2 * PI * exp 1)).
  { rewrite gaussian_entropy_spec_sum by (repeat constructor; lra).
    cbn [map vsum fold_right length]. change (INR 1) with 1. lra. }
  split; [|split].
  - rewrite entropy_rows. cbn [map]. unfold entropy_row.
    cbn [skipn map vsum fold_right]. change (INR 1) with 1.
    do 3 f_equal. lra.
  - exact Hspec.
  - rewrite Hspec. pose proof ln_lt_2. lra.
Qed.

(** C2 (the code departs from the claim).  At action dimension 2 and the
    rank 3 record [[[1, 2, 3, 4]]] of shape (1, 1, 4), [maxprob] returns
    [[3]], the entry of index 2 of the last axis, of shape (1, 1); on the
    reshaped rank 2 record [[1, 2, 3, 4]] it returns the means [[1, 2]],
    of shape (1, 2). *)
Theorem maxprob_3d_differs_from_2d :
  view 4 (T3 [[[1; 2; 3; 4]]]) = Ok (T2 [[1; 2; 3; 4]])
  /\ maxprob 2 (T3 [[[1; 2; 3; 4]]]) = Ok (T2 [[3]])
  /\ maxprob 2 (T2 [[1; 2; 3; 4]]) = Ok (T2 [[1; 2]])
  /\ flat (T2 [[3]]) <> flat (T2 [[1; 2]]).
Proof.
  repeat split; try reflexivity.
  simpl. intros H. discriminate H.
Qed.

(** C3.  On a rank 2 record whose rows are [d] means followed by standard
    deviations, [maxprob] returns [prob[:, :d]], and that is the matrix of
    the means. *)
Theorem maxprob_2d_returns_means (d : nat) (means_stds : list (vec * vec)) :
  Forall (fun ms => length (fst ms) = d) means_stds ->
  maxprob d (T2 (record_of means_stds))
  = Ok (T2 (map (firstn d) (record_of means_stds)))
  /\ map (firstn d) (record_of means_stds) = map fst means_stds.
Proof.
  intros H. split; [reflexivity|].
  unfold record_of. rewrite map_map.
  apply map_ext_in. intros [m s] Hin.
  rewrite Forall_forall in H. specialize (H _ Hin). simpl in *.
  rewrite firstn_app, H, Nat.sub_diag. rewrite <- H at 1.
  rewrite firstn_all. simpl. apply app_nil_r.
Qed.

Lemma maxprob_2d_returns_means_witness :
  Forall (fun ms : vec * vec => length (fst ms) = 2%nat)
         [([1; 2], [3; 4]); ([5; 6], [7; 8])]
  /\ maxprob 2 (T2 (record_of [([1; 2], [3; 4]); ([5; 6], [7; 8])]))
     = Ok (T2 (map (firstn 2) (record_of [([1; 2], [3; 4]); ([5; 6], [7; 8])])))
  /\ map (firstn 2) (record_of [([1; 2], [3; 4]); ([5; 6], [7; 8])])
     = map fst [([1; 2], [3; 4]); ([5; 6], [7; 8])].
Proof.
  assert (H : Forall (fun ms : vec * vec => length (fst ms) = 2%nat)
                     [([1; 2], [3; 4]); ([5; 6], [7; 8])])
    by (repeat constructor).
  split; [exact H|].
  exact (@maxprob_2d_returns_means 2 _ H).
Defined.

(** [likelihood] is the entrywise maximum of [exp(loglikelihood)] and
    [1e-5], whatever the operands. *)
Lemma likelihood_clamps (d : nat) (a prob : tensor) :
  likelihood d a prob
  = fmap (tmap (fun x => Rmax (exp x) 1e-5)) (loglikelihood d a prob).
Proof.
  unfold likelihood, fmap, clamp_min.
  destruct (loglikelihood d a prob) as [l|e]; simpl; [|reflexivity].
  f_equal. rewrite tmap_tmap. apply tmap_ext. intros x.
  apply clamp_is_Rmax.
Qed.

Lemma loglikelihood_2d (d n : nat) (ma mp : mat) :
  shape2 n d ma -> shape2 n (2 * d) mp ->
  loglikelihood d (T2 ma) (T2 mp)
  = Ok (T2 (loglikelihood_table d (T2 ma) (T2 mp))).
Proof.
  intros [Hna Ha] [Hnp Hp]. unfold loglikelihood_table. simpl batch_rows.
  assert (Hlen : length ma = length mp) by congruence.
  set (l := combine ma mp).
  assert (Ea : ma = map fst l) by (symmetry; apply map_fst_combine, Hlen).
  assert (Ep : mp = map snd l) by (symmetry; apply map_snd_combine, Hlen).
  clearbody l. subst ma mp.
  apply Forall_map in Ha, Hp.
  rewrite (@loglikelihood_rows _ d fst snd l (Forall_and Ha Hp)). reflexivity.
Qed.

Lemma shape3_concat (b t k : nat) (c : cube) :
  shape3 b t k c -> shape2 (b * t) k (concat c).
Proof.
  intros [Hb Hc]. subst b.
  induction Hc as [|m c [Hm Hr] _ [IHn IHr]]; simpl.
  - split; constructor.
  - split.
    + rewrite length_app, IHn, Hm. reflexivity.
    + apply Forall_app. split; assumption.
Qed.

(** C4.  For a batch of actions and a probability record of the same
    layout (rank 2, or rank 3 with a time axis), [loglikelihood] returns
    one entry per merged batch row and [likelihood] returns, entry by
    entry, the maximum of its exponential and [1e-5]. *)
Theorem likelihood_is_floored_exp (d : nat) (a prob : tensor) :
  (0 < d)%nat ->
  valid_actions d a prob ->
  loglikelihood d a prob = Ok (T2 (loglikelihood_table d a prob))
  /\ likelihood d a prob
     = Ok (T2 (map (map (fun x => Rmax (exp x) 1e-5))
                   (loglikelihood_table d a prob))).
Proof.
  intros Hd Hv.
  assert (Hl : loglikelihood d a prob = Ok (T2 (loglikelihood_table d a prob))).
  { destruct a as [va|ma|ca], prob as [vp|mp|cp]; simpl in Hv; try contradiction.
    - destruct Hv as (n & Ha & Hp). apply (loglikelihood_2d Ha Hp).
    - destruct Hv as (b & t & Ha & Hp).
      rewrite (loglikelihood_3d_as_2d Hd Ha Hp).
      apply (loglikelihood_2d (shape3_concat Ha) (shape3_concat Hp)). }
  split; [exact Hl|].
  rewrite likelihood_clamps, Hl. reflexivity.
Qed.

Lemma likelihood_is_floored_exp_witness :
  (0 < 1)%nat
  /\ valid_actions 1 (T2 [[0]; [3]]) (T2 [[0; 1]; [1; 2]])
  /\ loglikelihood 1 (T2 [[0]; [3]]) (T2 [[0; 1]; [1; 2]])
     = Ok (T2 (loglikelihood_table 1 (T2 [[0]; [3]]) (T2 [[0; 1]; [1; 2]])))
  /\ likelihood 1 (T2 [[0]; [3]]) (T2 [[0; 1]; [1; 2]])
     = Ok (T2 (map (map (fun x => Rmax (exp x) 1e-5))
                   (loglikelihood_table 1 (T2 [[0]; [3]]) (T2 [[0; 1]; [1; 2]])))).
Proof.
  assert (Hd : (0 < 1)%nat) by lia.
  assert (Hv : valid_actions 1 (T2 [[0]; [3]]) (T2 [[0; 1]; [1; 2]])).
  { exists 2%nat. split; split; try reflexivity; repeat constructor. }
  split; [exact Hd|]. split; [exact Hv|].
  exact (@likelihood_is_floored_exp 1 _ _ Hd Hv).
Defined.

Lemma kl_2d_self (d : nat) (m : mat) :
  valid_prob2 d m -> kl d (T2 m) (T2 m) = Ok (T1 (map (fun _ => 0) m)).
Proof.
  intros [Hlen Hpos].
  assert (Hl : Forall (fun r : vec => length r = (2 * d)%nat
                                     /\ length r = (2 * d)%nat) m)
    by (apply Forall_and; assumption).
  pose proof (@kl_rows _ d (fun r => r) (fun r => r) m Hl) as K.
  rewrite !map_id in K. rewrite K. do 2 f_equal.
  apply map_ext_in. intros r Hr.
  rewrite Forall_forall in Hlen, Hpos.
  rewrite kl_row_spec by auto.
  apply kl_spec_self; [|auto].
  rewrite length_firstn, length_skipn, (Hlen r Hr). lia.
Qed.

(** C5.  For a probability record with positive standard deviations, of
    rank 2 or of rank 3, [kl(p, p)] is 0 in every merged batch row. *)
Theorem kl_self_is_zero (d : nat) (p : tensor) :
  (0 < d)%nat ->
  valid_prob d p ->
  kl d p p = Ok (T1 (map (fun _ => 0) (batch_rows p))).
Proof.
  intros Hd Hp. destruct p as [v|m|c]; simpl in Hp; [contradiction| |].
  - apply kl_2d_self, Hp.
  - rewrite (kl_3d_as_2d Hd Hp Hp). simpl batch_rows.
    apply kl_2d_self, valid_prob3_concat, Hp.
Qed.

Lemma kl_self_is_zero_witness :
  (0 < 1)%nat
  /\ valid_prob 1 (T3 [[[0; 1]; [3; 2]]])
  /\ kl 1 (T3 [[[0; 1]; [3; 2]]]) (T3 [[[0; 1]; [3; 2]]])
     = Ok (T1 (map (fun _ => 0) (batch_rows (T3 [[[0; 1]; [3; 2]]])))).
Proof.
  assert (Hd : (0 < 1)%nat) by lia.
  assert (Hv : valid_prob 1 (T3 [[[0; 1]; [3; 2]]])).
  { repeat constructor; simpl; lra. }
  split; [exact Hd|]. split; [exact Hv|].
  exact (@kl_self_is_zero 1 _ Hd Hv).
Defined.

(** For two records of one shape, [kl] returns the closed form of the
    specification in every row. *)
Lemma kl_closed_form (d n : nat) (m0 m1 : mat) :
  shape2 n (2 * d) m0 -> shape2 n (2 * d) m1 ->
  kl d (T2 m0) (T2 m1)
  = Ok (T1 (map (fun rr => kl_spec (firstn d (fst rr)) (skipn d (fst rr))
                                   (firstn d (snd rr)) (skipn d (snd rr)))
                (combine m0 m1))).
Proof.
  intros [Hn0 H0] [Hn1 H1].
  assert (Hlen : length m0 = length m1) by congruence.
  set (l := combine m0 m1).
  assert (E0 : m0 = map fst l) by (symmetry; apply map_fst_combine, Hlen).
  assert (E1 : m1 = map snd l) by (symmetry; apply map_snd_combine, Hlen).
  clearbody l. subst m0 m1.
  apply Forall_map in H0, H1.
  pose proof (Forall_and H0 H1) as Hl.
  rewrite (@kl_rows _ d fst snd l Hl). do 2 f_equal.
  apply map_ext_in. intros rr Hin.
  rewrite Forall_forall in Hl. destruct (Hl _ Hin) as [Hr0 Hr1].
  apply kl_row_spec; assumption.
Qed.

End DiagGaussFacts.

(** ** [PPOModel] *)

Module PPOFacts.

Import PPO.

Section ModelFacts.

Context {N : Networks}.

Lemma init_built (sig : R) (od ad : nat) (uz : bool) (rc : RNNConfig)
      (cuda : bool) (seed : Seed) :
  built (init sig od ad uz rc cuda seed).
Proof.
  unfold built, init. simpl. split.
  - destruct uz; reflexivity.
  - destruct (if_rnn_policy rc); reflexivity.
Qed.

Lemma z_update_keeps_built (obs : tensor) (m : PPOModel) :
  built m -> built (snd (z_update obs m)).
Proof.
  intros Hm. unfold z_update, get_z_filter, throw.
  destruct (use_z_filter m) eqn:Eu; [|exact Hm].
  destruct (z_filter m) as [z|] eqn:Ez; [|exact Hm].
  destruct Hm as [_ Hr]. split; simpl; [symmetry; exact Eu | exact Hr].
Qed.

Lemma update_target_z_filter_keeps_built (net m : PPOModel) :
  built m -> built (snd (update_target_z_filter net m)).
Proof.
  intros Hm. unfold update_target_z_filter, z_filter_load_from, get_z_filter, done.
  destruct (use_z_filter m) eqn:Eu; [|exact Hm].
  destruct (z_filter m) as [z|] eqn:Ez; [|exact Hm].
  destruct (z_filter net) as [y|]; [|exact Hm].
  destruct Hm as [_ Hr]. split; simpl; [symmetry; exact Eu | exact Hr].
Qed.

Lemma update_target_params_keeps_built (net m : PPOModel) :
  built m -> built (snd (update_target_params net m)).
Proof.
  intros [Hz Hr].
  destruct m as [om am um sm cm rm actm crm zm].
  destruct net as [on an un sn cn rn actn crn zn].
  unfold built in *. simpl in *.
  unfold update_target_params, seq, actor_load_state_dict,
    critic_load_state_dict, actor_state_dict, critic_state_dict,
    z_filter_load_from, get_z_filter, done, set_actor, set_critic,
    set_rnn_stem, set_z_filter.
  simpl.
  destruct rm as [wm|], rn as [wn|]; simpl in *;
    try (split; assumption);
    destruct um; simpl; try (split; assumption);
    destruct zm as [ym|], zn as [yn|]; simpl in *;
    split; assumption.
Qed.

(** With equal hyperparameters and both models as the constructor leaves
    them, the three copies of [update_target_params] succeed and leave
    [self] with the state of [net]. *)
Lemma update_target_params_result (a b : PPOModel) :
  built a -> built b -> same_config a b ->
  update_target_params b a = (Ok tt, b).
Proof.
  intros [Hza Hra] [Hzb Hrb] (Ho & Ha & Hu & Hs & Hc).
  destruct a as [oa aa ua sa ca ra acta cra za].
  destruct b as [ob ab ub sb cb rb actb crb zb].
  simpl in *. subst ob ab ub sb cb.
  unfold update_target_params, seq, actor_load_state_dict,
    critic_load_state_dict, actor_state_dict, critic_state_dict,
    z_filter_load_from, get_z_filter, done, set_actor, set_critic,
    set_rnn_stem, set_z_filter.
  simpl.
  destruct ra as [wa|], rb as [wb|]; simpl in *; try congruence;
    destruct ua; simpl;
    destruct za as [ya|], zb as [yb|]; simpl in *; try discriminate;
    reflexivity.
Qed.

(** C7.  For two models with the same configuration, each as its
    constructor and methods leave it, [a.update_target_params(b)]
    returns, and afterwards [a] holds the actor, critic, stem and filter
    state of [b] and gives the outputs of [b] in [forward_actor] and
    [forward_critic] on every input. *)
Theorem update_target_params_syncs (a b : PPOModel) :
  built a -> built b -> same_config a b ->
  exists a',
    update_target_params b a = (Ok tt, a')
    /\ actor a' = actor b /\ critic a' = critic b
    /\ rnn_stem a' = rnn_stem b /\ z_filter a' = z_filter b
    /\ (forall obs cells, forward_actor a' obs cells = forward_actor b obs cells)
    /\ (forall obs cells, forward_critic a' obs cells = forward_critic b obs cells).
Proof.
  intros Ha Hb Hc. exists b.
  rewrite (update_target_params_result Ha Hb Hc).
  repeat split; reflexivity.
Qed.

(** C6.  On a model as its constructor leaves it, [z_update] raises
    exactly when [use_z_filter] is [False]: then it raises [ValueError]
    and the model is unchanged; otherwise it returns and the state of the
    filter is the updated one. *)
Theorem z_update_raises_iff_disabled (m : PPOModel) (obs : tensor) :
  built m ->
  (raises (fst (z_update obs m)) <-> use_z_filter m = false)
  /\ (use_z_filter m = false ->
      z_update obs m
      = (Raise (ValueError "Z_update called when network is set to not use z_filter"),
         m))
  /\ (use_z_filter m = true ->
      exists z, z_filter m = Some z
        /\ z_update obs m
           = (Ok tt, set_z_filter (Some (zfilter_z_update obs z)) m)).
Proof.
  intros [Hz _]. unfold z_update, get_z_filter, throw, raises.
  destruct (use_z_filter m) eqn:Eu.
  - destruct (z_filter m) as [z|] eqn:Ez; [|discriminate Hz].
    simpl. split; [split|split].
    + intros [e He]. discriminate He.
    + discriminate.
    + discriminate.
    + intros _. exists z. split; reflexivity.
  - simpl. split; [split|split].
    + reflexivity.
    + intros _. eexists. reflexivity.
    + reflexivity.
    + discriminate.
Qed.

(** C10.  When [use_z_filter] is [False], [update_target_z_filter]
    returns and leaves the model as it was, whatever [net] is, while
    [z_update] raises [ValueError] on the same model. *)
Theorem update_target_z_filter_disabled_noop
        (m net : PPOModel) (obs : tensor) :
  use_z_filter m = false ->
  update_target_z_filter net m = (Ok tt, m)
  /\ fst (z_update obs m)
     = Raise (ValueError "Z_update called when network is set to not use z_filter").
Proof.
  intros Hu. unfold update_target_z_filter, z_update, done, throw.
  rewrite Hu. split; reflexivity.
Qed.

End ModelFacts.

Lemma update_target_params_syncs_witness :
  built (toy_model true 1) /\ built (toy_model true 2)
  /\ same_config (toy_model true 1) (toy_model true 2)
  /\ exists a',
       update_target_params (toy_model true 2) (toy_model true 1) = (Ok tt, a')
       /\ actor a' = actor (toy_model true 2)
       /\ critic a' = critic (toy_model true 2)
       /\ rnn_stem a' = rnn_stem (toy_model true 2)
       /\ z_filter a' = z_filter (toy_model true 2)
       /\ (forall obs cells,
             forward_actor a' obs cells
             = forward_actor (toy_model true 2) obs cells)
       /\ (forall obs cells,
             forward_critic a' obs cells
             = forward_critic (toy_model true 2) obs cells).
Proof.
  assert (Ha : built (toy_model true 1)) by apply init_built.
  assert (Hb : built (toy_model true 2)) by apply init_built.
  assert (Hc : same_config (toy_model true 1) (toy_model true 2))
    by (repeat split; reflexivity).
  split; [exact Ha|]. split; [exact Hb|]. split; [exact Hc|].
  exact (@update_target_params_syncs toy_networks _ _ Ha Hb Hc).
Defined.

Lemma z_update_raises_iff_disabled_witness :
  built (toy_model false 1)
  /\ (raises (fst (z_update (T2 [[1; 2; 3]]) (toy_model false 1)))
      <-> use_z_filter (toy_model false 1) = false)
  /\ (use_z_filter (toy_model false 1) = false ->
      z_update (T2 [[1; 2; 3]]) (toy_model false 1)
      = (Raise (ValueError "Z_update called when network is set to not use z_filter"),
         toy_model false 1))
  /\ (use_z_filter (toy_model false 1) = true ->
      exists z, z_filter (toy_model false 1) = Some z
        /\ z_update (T2 [[1; 2; 3]]) (toy_model false 1)
           = (Ok tt,
              set_z_filter (Some (zfilter_z_update (T2 [[1; 2; 3]]) z))
                           (toy_model false 1))).
Proof.
  assert (Hm : built (toy_model false 1)) by apply init_built.
  split; [exact Hm|].
  exact (@z_update_raises_iff_disabled toy_networks _ (T2 [[1; 2; 3]]) Hm).
Defined.

Lemma update_target_z_filter_disabled_noop_witness :
  use_z_filter (toy_model false 1) = false
  /\ update_target_z_filter (toy_model true 2) (toy_model false 1)
     = (Ok tt, toy_model false 1)
  /\ fst (z_update (T2 [[1; 2; 3]]) (toy_model false 1))
     = Raise (ValueError "Z_update called when network is set to not use z_filter").
Proof.
  assert (Hu : use_z_filter (toy_model false 1) = false) by reflexivity.
  split; [exact Hu|].
  exact (@update_target_z_filter_disabled_noop toy_networks
           (toy_model false 1) (toy_model true 2) (T2 [[1; 2; 3]]) Hu).
Defined.

(** On the small instance, with the filter enabled, [z_update] returns
    and the statistic of the filter moves. *)
Example z_update_enabled_example :
  z_update (T2 [[1; 2; 3]]) (toy_model true 1)
  = (Ok tt, @set_z_filter toy_networks (Some (0 + 1)%R) (toy_model true 1)).
Proof. reflexivity. Qed.

End PPOFacts.

(** ** [TorchBroadcaster] *)

Module BroadcasterFacts.

Import Broadcaster.

Section BroadcastFacts.

Context {RT : Runtime}.

Lemma broadcast_module (self : TorchBroadcaster) (m : TorchModule)
      (message : Message) (w : world) :
  fst (broadcast self (IsModule m) message w)
  = fst (base_broadcast (name self) (parameters_to_binary m) message (redis w))
  /\ redis (snd (broadcast self (IsModule m) message w))
     = snd (base_broadcast (name self) (parameters_to_binary m) message (redis w)).
Proof.
  unfold broadcast. simpl.
  destruct (_debug self); simpl; split; reflexivity.
Qed.

(** C9.  For a net that is a [U.Module], [broadcast] hands the base
    class exactly [net.parameters_to_binary()] and [message], under the
    name of the broadcaster, on the channel as it was: its outcome and
    the channel afterwards are those of that call, hence the same in two
    runs that differ in the debug flag only; the flag adds one line of
    output and nothing else.  A net that is not a [U.Module] raises and
    leaves the channel and the output untouched. *)
Theorem broadcast_payload_independent_of_debug
        (self : TorchBroadcaster) (message : Message) (w : world) :
  (forall (m : TorchModule) (dbg : bool),
      let rc := base_broadcast (name self) (parameters_to_binary m) message
                               (redis w) in
      fst (broadcast (with_debug dbg self) (IsModule m) message w) = fst rc
      /\ redis (snd (broadcast (with_debug dbg self) (IsModule m) message w))
         = snd rc)
  /\ (forall (m : TorchModule) (dbg dbg' : bool),
         fst (broadcast (with_debug dbg self) (IsModule m) message w)
         = fst (broadcast (with_debug dbg' self) (IsModule m) message w)
         /\ redis (snd (broadcast (with_debug dbg self) (IsModule m) message w))
            = redis (snd (broadcast (with_debug dbg' self) (IsModule m) message w)))
  /\ (forall m : TorchModule,
         stdout (snd (broadcast (with_debug false self) (IsModule m) message w))
         = stdout w
         /\ stdout (snd (broadcast (with_debug true self) (IsModule m) message w))
            = stdout w ++ [["BROADCAST"; str message; "BINARY_HASH";
                            binary_hash (parameters_to_binary m)]%string])
  /\ (forall o : Foreign,
         raises (fst (broadcast self (NotModule o) message w))
         /\ snd (broadcast self (NotModule o) message w) = w).
Proof.
  split; [|split; [|split]].
  - intros m dbg rc. subst rc.
    apply (broadcast_module (with_debug dbg self) m message w).
  - intros m dbg dbg'.
    destruct (broadcast_module (with_debug dbg self) m message w) as [E1 E2].
    destruct (broadcast_module (with_debug dbg' self) m message w) as [E1' E2'].
    rewrite E1, E2, E1', E2'. split; reflexivity.
  - intros m. split; reflexivity.
  - intros o. split; [|reflexivity].
    exists AssertionError. reflexivity.
Qed.

End BroadcastFacts.

(** On a channel that keeps what was published, [broadcast] adds the one
    entry [(name, (binary, message))], with or without the debug flag. *)
Lemma broadcast_appends_to_log (B M : Type) (hash : B -> string)
      (show : M -> string) (self : @TorchBroadcaster) (dbg : bool)
      (net : B) (message : M) (w : @world (log_runtime hash show)) :
  redis (snd (@broadcast (log_runtime hash show) (with_debug dbg self)
                         (@IsModule (log_runtime hash show) net) message w))
  = redis w ++ [(name self, (net, message))].
Proof.
  unfold broadcast. simpl. destruct dbg; reflexivity.
Qed.

End BroadcasterFacts.

(** ** The evaluation loop *)

Module EvalLoopFacts.

Import EvalLoop.

Lemma cons_app_cases {A : Type} (e : A) (h pre l : list A) :
  e :: h = pre ++ l ->
  (pre = [] /\ l = e :: h) \/ (exists pre', pre = e :: pre' /\ h = pre' ++ l).
Proof.
  destruct pre as [|x pre']; simpl; intros H.
  - left. split; [reflexivity | symmetry; exact H].
  - right. injection H as -> ->. exists pre'. split; reflexivity.
Qed.

Lemma rev_decomp {A : Type} (h pre post : list A) (x : A) :
  rev h = pre ++ x :: post -> h = rev post ++ x :: rev pre.
Proof.
  intros H. rewrite <- (rev_involutive h), H, rev_app_distr. simpl.
  rewrite <- app_assoc. reflexivity.
Qed.

(** A history stays safe under a new call that respects its latest
    calls. *)
Lemma safe_cons (e : event) (h : list event) :
  safe h ->
  (e = Reset -> exists h', h = Pull :: h') ->
  (forall h', h = Step true :: h' -> e = Pull) ->
  (forall h', h = Pull :: Step true :: h' -> e = Reset) ->
  (h = [] -> e = Pull) ->
  safe (e :: h).
Proof.
  intros (S1 & S2 & S3 & S4) H1 H2 H3 H4. repeat split.
  - intros pre post E.
    destruct (@cons_app_cases _ _ _ _ _ E) as [[-> E'] | (pre' & -> & E')].
    + injection E' as <- ->. apply H1. reflexivity.
    + apply (S1 _ _ E').
  - intros pre y post E.
    destruct (@cons_app_cases _ _ _ _ _ E) as [[-> E'] | (pre' & -> & E')].
    + injection E' as -> E'. apply (H2 post). symmetry. exact E'.
    + apply (S2 _ _ _ E').
  - intros pre x y post E.
    destruct (@cons_app_cases _ _ _ _ _ E) as [[-> E'] | (pre' & -> & E')].
    + injection E' as -> E'. symmetry in E'.
      assert (y = Pull) by (apply (S2 [] y post); exact E'). subst y.
      apply (H3 post). exact E'.
    + apply (S3 _ _ _ _ E').
  - right. destruct S4 as [-> | (pre & ->)].
    + exists []. rewrite H4; reflexivity.
    + exists (e :: pre). reflexivity.
Qed.

Section LoopFacts.

Context {C : Collaborators}.

Lemma initial_invariant (w : World) : invariant (initial w).
Proof.
  split; [reflexivity|].
  repeat split.
  - intros pre post E. destruct pre; discriminate E.
  - intros pre y post E. destruct pre; discriminate E.
  - intros pre x y post E. destruct pre; discriminate E.
  - left. reflexivity.
Qed.

(** The invariant holds after every statement, and no statement reads an
    unbound variable. *)
Lemma exec_invariant (s : state) :
  invariant s ->
  exists s', exec s = Some s' /\ invariant s'
    /\ (history s' = history s \/ exists e, history s' = e :: history s).
Proof.
  intros [Hc Hs]. unfold coupled in Hc. unfold exec.
  destruct (pc s) eqn:Epc.
  - (* line 31 *)
    eexists. split; [reflexivity|]. split; [|right; eexists; reflexivity].
    split; [unfold coupled; simpl; rewrite Hc; reflexivity|].
    simpl. apply safe_cons; trivial; rewrite Hc; discriminate.
  - (* line 32 *)
    eexists. split; [reflexivity|]. split; [|right; eexists; reflexivity].
    split.
    + unfold coupled. simpl. split; [discriminate|].
      exists (history s). left. reflexivity.
    + simpl. apply safe_cons; trivial; rewrite Hc; try discriminate.
      intros _. exists []. reflexivity.
  - (* line 34 *)
    destruct Hc as [Ho (h & Hh)].
    destruct (obs s) as [o|] eqn:Eo; [|congruence].
    eexists. split; [reflexivity|]. split; [|right; eexists; reflexivity].
    split.
    + unfold coupled. simpl. split; [discriminate|].
      exists (history s). reflexivity.
    + simpl. apply safe_cons; trivial; try discriminate;
        destruct Hh as [-> | ->]; discriminate.
  - (* line 35 *)
    destruct Hc as [Ha (h & Hh)].
    destruct (action s) as [a|] eqn:Ea; [|congruence].
    destruct (env_step a (world s)) as [[[[o rew] d] i] w'] eqn:Es. simpl.
    eexists. split; [reflexivity|]. split; [|right; eexists; reflexivity].
    split.
    + unfold coupled. simpl. split; [discriminate|].
      exists d, (history s). split; reflexivity.
    + simpl. apply safe_cons; trivial; try discriminate;
        rewrite Hh; discriminate.
  - (* line 36 *)
    destruct Hc as [Ho (d & h & Hd & Hh)]. rewrite Hd.
    eexists. split; [reflexivity|]. split; [|left; reflexivity].
    split; [|exact Hs].
    unfold coupled. simpl. destruct d; simpl.
    + exists h. exact Hh.
    + split; [exact Ho|]. exists h. right. exact Hh.
  - (* line 37 *)
    destruct Hc as (h & Hh).
    eexists. split; [reflexivity|]. split; [|right; eexists; reflexivity].
    split.
    + unfold coupled. simpl. exists h. rewrite Hh. reflexivity.
    + simpl. apply safe_cons; trivial; rewrite Hh; discriminate.
  - (* line 38 *)
    destruct Hc as (h & Hh).
    eexists. split; [reflexivity|]. split; [|right; eexists; reflexivity].
    split.
    + unfold coupled. simpl. split; [discriminate|].
      exists (history s). left. reflexivity.
    + simpl. apply safe_cons; trivial; rewrite Hh; try discriminate.
      intros _. eexists. reflexivity.
Qed.

Lemma run_invariant (n : nat) : forall s, invariant s -> invariant (run n s).
Proof.
  induction n as [|n IH]; intros s Hs; [exact Hs|].
  simpl. destruct (exec_invariant Hs) as (s' & -> & Hs' & _).
  apply IH, Hs'.
Qed.

Lemma run_add (n m : nat) : forall s, run (n + m) s = run m (run n s).
Proof.
  induction n as [|n IH]; intros s; [reflexivity|].
  simpl. destruct (exec s) as [s'|] eqn:E; [apply IH|].
  destruct m; simpl; [reflexivity | rewrite E; reflexivity].
Qed.

(** Only the test of line 36 makes no call; it is reached from line 35
    only and leads to a line that makes one. *)
Lemma exec_calls (s s' : state) :
  exec s = Some s' ->
  (pc s = L36 /\ history s' = history s /\ (pc s' = L34 \/ pc s' = L37))
  \/ (pc s <> L36 /\ (exists e, history s' = e :: history s)
      /\ (pc s' = L36 -> pc s = L35)).
Proof.
  unfold exec. destruct (pc s) eqn:Epc.
  - intros [= <-]. right. simpl. repeat split;
      [discriminate | eexists; reflexivity | discriminate].
  - intros [= <-]. right. simpl. repeat split;
      [discriminate | eexists; reflexivity | discriminate].
  - destruct (obs s); [|discriminate]. intros [= <-]. right. simpl.
    repeat split; [discriminate | eexists; reflexivity | discriminate].
  - destruct (action s) as [a|]; [|discriminate].
    destruct (env_step a (world s)) as [[[[o rew] d] i] w']. simpl.
    intros [= <-]. right. simpl.
    repeat split; [discriminate | eexists; reflexivity].
  - destruct (done s) as [d|]; [|discriminate]. intros [= <-]. left. simpl.
    repeat split. destruct d; [right | left]; reflexivity.
  - intros [= <-]. right. simpl. repeat split;
      [discriminate | eexists; reflexivity | discriminate].
  - intros [= <-]. right. simpl. repeat split;
      [discriminate | eexists; reflexivity | discriminate].
Qed.

(** Any three statements in a row make at least two calls. *)
Lemma two_calls_in_three (s : state) :
  invariant s ->
  exists l e2 e1, history (run 3 s) = l ++ e2 :: e1 :: history s.
Proof.
  intros H0.
  destruct (exec_invariant H0) as (s1 & E1 & H1 & _).
  destruct (exec_invariant H1) as (s2 & E2 & H2 & _).
  destruct (exec_invariant H2) as (s3 & E3 & H3 & _).
  simpl. rewrite E1, E2, E3.
  destruct (@exec_calls _ _ E1) as [(P0 & K1 & P1) | (P0 & (e1 & K1) & Q1)];
    destruct (@exec_calls _ _ E2) as [(P1' & K2 & P2) | (P1' & (e2 & K2) & Q2)];
    destruct (@exec_calls _ _ E3) as [(P2' & K3 & P3) | (P2' & (e3 & K3) & Q3)];
    rewrite K3, K2, K1.
  - destruct P1; congruence.
  - destruct P1; congruence.
  - specialize (Q2 P2'). destruct P1; congruence.
  - exists [], e3, e2. reflexivity.
  - destruct P2; congruence.
  - exists [], e3, e1. reflexivity.
  - exists [], e2, e1. reflexivity.
  - exists [e3], e2, e1. reflexivity.
Qed.

(** C8.  In the calls made by any number of statements of the program:
    the first call is a pull; every reset comes right after a pull; the
    call right after a step that returned [done = True] is a pull and the
    one after that a reset; three statements later that pull and that
    reset have been made; and the program never stops. *)
Theorem eval_loop_pulls_before_every_episode (w : World) (n : nat) :
  (trace n w = [] \/ exists rest, trace n w = Pull :: rest)
  /\ (forall pre post,
         trace n w = pre ++ Reset :: post -> exists pre', pre = pre' ++ [Pull])
  /\ (forall pre y post,
         trace n w = pre ++ Step true :: y :: post -> y = Pull)
  /\ (forall pre y z post,
         trace n w = pre ++ Step true :: y :: z :: post -> z = Reset)
  /\ (forall pre post,
         trace n w = pre ++ Step true :: post ->
         exists rest, trace (n + 3) w = pre ++ Step true :: Pull :: Reset :: rest)
  /\ (exists s', exec (run n (initial w)) = Some s').
Proof.
  assert (Hsafe : forall k,
    (trace k w = [] \/ exists rest, trace k w = Pull :: rest)
    /\ (forall pre post,
           trace k w = pre ++ Reset :: post -> exists pre', pre = pre' ++ [Pull])
    /\ (forall pre y post,
           trace k w = pre ++ Step true :: y :: post -> y = Pull)
    /\ (forall pre y z post,
           trace k w = pre ++ Step true :: y :: z :: post -> z = Reset)).
  { intros k. unfold trace.
    destruct (run_invariant k (initial_invariant w)) as [_ (S1 & S2 & S3 & S4)].
    split; [|split; [|split]].
    - destruct S4 as [-> | (pre & ->)]; [left; reflexivity|].
      right. exists (rev pre). rewrite rev_app_distr. reflexivity.
    - intros pre post E. apply rev_decomp in E.
      destruct (S1 _ _ E) as (post' & E').
      exists (rev post'). rewrite <- (rev_involutive pre), E'. reflexivity.
    - intros pre y post E.
      replace (pre ++ Step true :: y :: post)
        with ((pre ++ [Step true]) ++ y :: post) in E
        by (rewrite <- app_assoc; reflexivity).
      apply rev_decomp in E. rewrite rev_app_distr in E. simpl in E.
      apply (S2 _ _ _ E).
    - intros pre y z post E.
      replace (pre ++ Step true :: y :: z :: post)
        with ((pre ++ [Step true; y]) ++ z :: post) in E
        by (rewrite <- app_assoc; reflexivity).
      apply rev_decomp in E. rewrite rev_app_distr in E. simpl in E.
      apply (S3 _ _ _ _ E). }
  destruct (Hsafe n) as (A1 & A2 & A3 & A4).
  split; [exact A1|]. split; [exact A2|]. split; [exact A3|].
  split; [exact A4|]. split.
  - intros pre post E.
    pose proof (run_invariant n (initial_invariant w)) as Hn.
    destruct (two_calls_in_three Hn) as (l & e2 & e1 & El).
    assert (E3 : trace (n + 3) w
                 = pre ++ Step true :: post ++ e1 :: e2 :: rev l).
    { unfold trace in *. rewrite run_add, El, rev_app_distr. simpl.
      rewrite E. repeat (rewrite <- app_assoc; simpl). reflexivity. }
    destruct (Hsafe (n + 3)%nat) as (_ & _ & B3 & B4).
    destruct post as [|y [|z post]]; simpl in E3.
    + rewrite (B3 _ _ _ E3) in E3. rewrite (B4 _ _ _ _ E3) in E3.
      exists (rev l). exact E3.
    + rewrite (B3 _ _ _ E3) in E3. rewrite (B4 _ _ _ _ E3) in E3.
      exists (e2 :: rev l). exact E3.
    + rewrite (B3 _ _ _ E3) in E3. rewrite (B4 _ _ _ _ E3) in E3.
      exists (post ++ e1 :: e2 :: rev l). exact E3.
  - destruct (exec_invariant (run_invariant n (initial_invariant w)))
      as (s' & E & _).
    exists s'. exact E.
Qed.

End LoopFacts.

(** On the small instance the third step ends the episode: the calls of
    the first thirteen statements. *)
Example toy_trace :
  @trace toy_collaborators 13 0%nat
  = [Pull; Reset; Act; Step false; Act; Step false; Act; Step true;
     Pull; Reset].
Proof. reflexivity. Qed.

End EvalLoopFacts.

(** ** More on [DiagGauss] *)

Module DiagGaussMore.

Import TensorFacts DiagGauss DiagGaussFacts.
Open Scope R_scope.

#[local] Arguments pow : simpl never.
#[local] Arguments Nat.mul : simpl never.
#[local] Arguments INR : simpl never.

Lemma ln_le_compat (x y : R) : 0 < x -> x <= y -> ln x <= ln y.
Proof.
  intros Hx [Hlt | ->]; [|lra].
  left. apply ln_increasing; assumption.
Qed.




(** X4.  For two records of one shape [(n, 2d)], [kl] returns in every
    row the closed form: the sum over the coordinates of
    [log(std1/std0) + (std0^2 + (mean0 - mean1)^2) / (2 std1^2) - 0.5]. *)
Theorem kl_returns_closed_form (d n : nat) (m0 m1 : mat) :
  shape2 n (2 * d) m0 -> shape2 n (2 * d) m1 ->
  kl d (T2 m0) (T2 m1)
  = Ok (T1 (map (fun rr => kl_spec (firstn d (fst rr)) (skipn d (fst rr))
                                   (firstn d (snd rr)) (skipn d (snd rr)))
                (combine m0 m1)))
  /\ exists v, kl d (T2 m0) (T2 m1) = Ok (T1 v) /\ length v = n.
Proof.
  intros H0 H1. pose proof (@kl_closed_form d n m0 m1 H0 H1) as E.
  split; [exact E|].
  eexists. split; [exact E|].
  destruct H0 as [L0 _], H1 as [L1 _].
  rewrite length_map, length_combine, L0, L1. apply Nat.min_id.
Qed.

Lemma kl_returns_closed_form_witness :
  shape2 2 (2 * 1) [[0; 1]; [1; 2]] /\ shape2 2 (2 * 1) [[1; 2]; [0; 1]]
  /\ kl 1 (T2 [[0; 1]; [1; 2]]) (T2 [[1; 2]; [0; 1]])
     = Ok (T1 (map (fun rr => kl_spec (firstn 1 (fst rr)) (skipn 1 (fst rr))
                                      (firstn 1 (snd rr)) (skipn 1 (snd rr)))
                   (combine [[0; 1]; [1; 2]] [[1; 2]; [0; 1]])))
  /\ exists v, kl 1 (T2 [[0; 1]; [1; 2]]) (T2 [[1; 2]; [0; 1]]) = Ok (T1 v)
               /\ length v = 2%nat.
Proof.
  assert (H0 : shape2 2 (2 * 1) [[0; 1]; [1; 2]])
    by (split; [reflexivity | repeat constructor]).
  assert (H1 : shape2 2 (2 * 1) [[1; 2]; [0; 1]])
    by (split; [reflexivity | repeat constructor]).
  split; [exact H0|]. split; [exact H1|].
  exact (@kl_returns_closed_form 1 2 _ _ H0 H1).
Defined.



(** X6.  [entropy] reads the standard deviations only: two records with the
    same [prob[:, d:]] have the same entropy, whatever their means. *)
Theorem entropy_ignores_means (d : nat) (p q : mat) :
  map (skipn d) p = map (skipn d) q ->
  entropy d (T2 p) = entropy d (T2 q).
Proof.
  intros H. rewrite !entropy_rows. do 2 f_equal.
  assert (E : forall m : mat,
             map (entropy_row d) m
             = map (fun s => 0.5 * vsum (map ln s)
                             + 0.5 * ln (2 * PI * exp 1) * INR d)
                   (map (skipn d) m))
    by (intros m; rewrite map_map; reflexivity).
  rewrite !E, H. reflexivity.
Qed.

Lemma entropy_ignores_means_witness :
  map (skipn 1) [[0; 2]; [5; 3]] = map (skipn 1) [[7; 2]; [-1; 3]]
  /\ entropy 1 (T2 [[0; 2]; [5; 3]]) = entropy 1 (T2 [[7; 2]; [-1; 3]]).
Proof.
  assert (H : map (skipn 1) [[0; 2]; [5; 3]] = map (skipn 1) [[7; 2]; [-1; 3]])
    by reflexivity.
  split; [exact H|].
  exact (@entropy_ignores_means 1 _ _ H).
Defined.

Lemma vsum_ln_monotone (s s' : vec) :
  Forall2 (fun x y => 0 < x <= y) s s' ->
  vsum (map ln s) <= vsum (map ln s').
Proof.
  induction 1 as [|x y s s' [Hx Hxy] _ IH]; simpl; [lra|].
  pose proof (ln_le_compat Hx Hxy).
  change (ln x + vsum (map ln s) <= ln y + vsum (map ln s')). lra.
Qed.

(** X7.  [entropy] grows with the standard deviations: when every standard
    deviation of [q] is at least the positive one of [p] at its place,
    every entry of the entropy of [q] is at least that of [p]. *)
Theorem entropy_monotone_in_std (d : nat) (p q : mat) :
  Forall2 (fun r r' => Forall2 (fun x y => 0 < x <= y) (skipn d r) (skipn d r'))
          p q ->
  exists v v', entropy d (T2 p) = Ok (T1 v) /\ entropy d (T2 q) = Ok (T1 v')
               /\ Forall2 Rle v v'.
Proof.
  intros H. exists (map (entropy_row d) p), (map (entropy_row d) q).
  rewrite !entropy_rows. split; [reflexivity|]. split; [reflexivity|].
  induction H as [|r r' p q Hr _ IH]; simpl; constructor; [|exact IH].
  unfold entropy_row. pose proof (vsum_ln_monotone Hr). lra.
Qed.

Lemma entropy_monotone_in_std_witness :
  Forall2 (fun r r' => Forall2 (fun x y => 0 < x <= y) (skipn 1 r) (skipn 1 r'))
          [[0; 1]; [4; 2]] [[9; 3]; [4; 2]]
  /\ exists v v', entropy 1 (T2 [[0; 1]; [4; 2]]) = Ok (T1 v)
                  /\ entropy 1 (T2 [[9; 3]; [4; 2]]) = Ok (T1 v')
                  /\ Forall2 Rle v v'.
Proof.
  assert (H : Forall2 (fun r r' => Forall2 (fun x y => 0 < x <= y)
                                           (skipn 1 r) (skipn 1 r'))
                      [[0; 1]; [4; 2]] [[9; 3]; [4; 2]])
    by (repeat constructor; simpl; lra).
  split; [exact H|].
  exact (@entropy_monotone_in_std 1 _ _ H).
Defined.

(** X8.  On a record with positive standard deviations, every entry that
    [entropy] returns is the closed form of the differential entropy of
    its row less half the sum of the logarithms of the standard
    deviations. *)
Theorem entropy_is_closed_form_less_half_log_std (d : nat) (p : mat) :
  valid_prob2 d p ->
  entropy d (T2 p)
  = Ok (T1 (map (fun r => gaussian_entropy_spec (skipn d r)
                          - 0.5 * vsum (map ln (skipn d r))) p)).
Proof.
  intros [Hl Hp]. rewrite entropy_rows. do 2 f_equal.
  apply map_ext_in. intros r Hr.
  rewrite Forall_forall in Hl, Hp.
  pose proof (entropy_row_gap d r (Hl r Hr) (Hp r Hr)). lra.
Qed.

Lemma entropy_is_closed_form_less_half_log_std_witness :
  valid_prob2 1 [[0; 2]; [1; 3]]
  /\ entropy 1 (T2 [[0; 2]; [1; 3]])
     = Ok (T1 (map (fun r => gaussian_entropy_spec (skipn 1 r)
                             - 0.5 * vsum (map ln (skipn 1 r)))
                   [[0; 2]; [1; 3]])).
Proof.
  assert (H : valid_prob2 1 [[0; 2]; [1; 3]])
    by (split; repeat constructor; simpl; lra).
  split; [exact H|].
  exact (@entropy_is_closed_form_less_half_log_std 1 _ H).
Defined.

Lemma flat_tmap (f : R -> R) (t : tensor) : flat (tmap f t) = map f (flat t).
Proof.
  destruct t as [v|m|c]; simpl; [reflexivity| |].
  - symmetry. apply concat_map.
  - symmetry. rewrite concat_map. f_equal. apply concat_map.
Qed.

(** X3.  Whatever the operands, no entry of a returned [likelihood] is below
    the floor [1e-5]; in particular every entry is positive. *)
Theorem likelihood_at_least_floor (d : nat) (a prob t : tensor) :
  likelihood d a prob = Ok t ->
  Forall (fun x => 1e-5 <= x /\ 0 < x) (flat t).
Proof.
  rewrite likelihood_clamps. unfold fmap.
  destruct (loglikelihood d a prob) as [l|e]; simpl; [|discriminate].
  intros [= <-]. rewrite flat_tmap. apply Forall_map, Forall_forall.
  intros x _. pose proof (Rmax_r (exp x) 1e-5). lra.
Qed.

Lemma likelihood_at_least_floor_witness :
  likelihood 1 (T2 [[0]; [3]]) (T2 [[0; 1]; [1; 2]])
  = Ok (T2 (map (map (fun x => Rmax (exp x) 1e-5))
                (loglikelihood_table 1 (T2 [[0]; [3]]) (T2 [[0; 1]; [1; 2]]))))
  /\ Forall (fun x => 1e-5 <= x /\ 0 < x)
            (flat (T2 (map (map (fun x => Rmax (exp x) 1e-5))
                           (loglikelihood_table 1 (T2 [[0]; [3]])
                                                (T2 [[0; 1]; [1; 2]]))))).
Proof.
  assert (H : likelihood 1 (T2 [[0]; [3]]) (T2 [[0; 1]; [1; 2]])
              = Ok (T2 (map (map (fun x => Rmax (exp x) 1e-5))
                            (loglikelihood_table 1 (T2 [[0]; [3]])
                                                 (T2 [[0; 1]; [1; 2]]))))).
  { rewrite likelihood_clamps.
    rewrite (@loglikelihood_2d 1 2 [[0]; [3]] [[0; 1]; [1; 2]]);
      [reflexivity | |]; split; try reflexivity; repeat constructor. }
  split; [exact H|].
  exact (@likelihood_at_least_floor 1 _ _ _ H).
Defined.

Lemma vsum_squares_nonneg (l : vec) : 0 <= vsum (map (fun x => x ^ 2) l).
Proof.
  induction l as [|x l IH]; simpl; [lra|].
  pose proof (pow2_ge_0 x).
  change (0 <= x ^ 2 + vsum (map (fun x => x ^ 2) l)). lra.
Qed.

Lemma squares_at_mean (m : vec) : forall s : vec,
  vsum (map (fun x => x ^ 2) (zipw Rdiv (zipw Rminus m m) s)) = 0.
Proof.
  induction m as [|x m IH]; intros [|y s]; try reflexivity.
  cbn [zipw combine map fst snd vsum fold_right].
  specialize (IH s). unfold zipw, vsum in IH. rewrite IH.
  unfold Rdiv. rewrite Rminus_diag, Rmult_0_l. unfold pow. lra.
Qed.

(** The density of a row is largest at its means. *)
Lemma loglikelihood_row_le_mode (d : nat) (a r : vec) :
  loglikelihood_row d a r <= loglikelihood_row d (firstn d r) r.
Proof.
  unfold loglikelihood_row. rewrite squares_at_mean.
  pose proof (vsum_squares_nonneg
                (zipw Rdiv (zipw Rminus a (firstn d r)) (skipn d r))).
  lra.
Qed.

Lemma shape2_means (d n : nat) (p : mat) :
  shape2 n (2 * d) p -> shape2 n d (map (firstn d) p).
Proof.
  intros [Hn Hp]. split; [rewrite length_map; exact Hn|].
  apply Forall_map. eapply Forall_impl; [|exact Hp].
  intros r Hr. simpl in Hr. rewrite length_firstn. lia.
Qed.

(** X2.  [maxprob] returns a batch of actions at which [loglikelihood] is
    largest: on a record of shape [(n, 2d)], the log-likelihood of any
    batch of actions of shape [(n, d)] is, row by row, at most that of
    [maxprob(prob)]. *)
Theorem maxprob_maximises_loglikelihood (d n : nat) (a p : mat) :
  shape2 n d a -> shape2 n (2 * d) p ->
  exists mode la lm,
    maxprob d (T2 p) = Ok mode
    /\ loglikelihood d (T2 a) (T2 p) = Ok (T2 la)
    /\ loglikelihood d mode (T2 p) = Ok (T2 lm)
    /\ Forall2 (Forall2 Rle) la lm.
Proof.
  intros Ha Hp.
  exists (T2 (map (firstn d) p)),
         (loglikelihood_table d (T2 a) (T2 p)),
         (loglikelihood_table d (T2 (map (firstn d) p)) (T2 p)).
  split; [reflexivity|].
  split; [apply (loglikelihood_2d Ha Hp)|].
  split; [apply (loglikelihood_2d (@shape2_means d n p Hp) Hp)|].
  unfold loglikelihood_table. simpl batch_rows.
  destruct Ha as [Hna _], Hp as [Hnp _]. subst n. clear -Hnp.
  revert a Hnp. induction p as [|r p IH]; intros [|x a] Hlen;
    simpl in Hlen; try discriminate; simpl; constructor.
  - constructor; [apply loglikelihood_row_le_mode | constructor].
  - apply IH. lia.
Qed.

Lemma maxprob_maximises_loglikelihood_witness :
  shape2 2 1 [[0]; [3]] /\ shape2 2 (2 * 1) [[0; 1]; [1; 2]]
  /\ exists mode la lm,
       maxprob 1 (T2 [[0; 1]; [1; 2]]) = Ok mode
       /\ loglikelihood 1 (T2 [[0]; [3]]) (T2 [[0; 1]; [1; 2]]) = Ok (T2 la)
       /\ loglikelihood 1 mode (T2 [[0; 1]; [1; 2]]) = Ok (T2 lm)
       /\ Forall2 (Forall2 Rle) la lm.
Proof.
  assert (Ha : shape2 2 1 [[0]; [3]])
    by (split; [reflexivity | repeat constructor]).
  assert (Hp : shape2 2 (2 * 1) [[0; 1]; [1; 2]])
    by (split; [reflexivity | repeat constructor]).
  split; [exact Ha|]. split; [exact Hp|].
  exact (@maxprob_maximises_loglikelihood 1 2 _ _ Ha Hp).
Defined.





(** X10.  The five methods that reshape first agree, on operands of shape
    [(batch, time, .)], with their run on the operands reshaped to
    [(batch * time, .)], when the action dimension is positive. *)
Theorem reshaping_methods_agree_on_rank3
        (stream : nat -> R) (d b t : nat) (ca cp cq : cube) :
  (0 < d)%nat ->
  shape3 b t d ca -> shape3 b t (2 * d) cp -> shape3 b t (2 * d) cq ->
  loglikelihood d (T3 ca) (T3 cp)
  = loglikelihood d (T2 (concat ca)) (T2 (concat cp))
  /\ likelihood d (T3 ca) (T3 cp)
     = likelihood d (T2 (concat ca)) (T2 (concat cp))
  /\ kl d (T3 cp) (T3 cq) = kl d (T2 (concat cp)) (T2 (concat cq))
  /\ entropy d (T3 cp) = entropy d (T2 (concat cp))
  /\ sample stream d (T3 cp) = sample stream d (T2 (concat cp)).
Proof.
  intros Hd Ha Hp Hq.
  assert (H2 : (0 < 2 * d)%nat) by lia.
  pose proof (shape3_rows Hp) as Rp. pose proof (shape3_rows Hq) as Rq.
  split; [apply (loglikelihood_3d_as_2d Hd Ha Hp)|].
  split; [apply (likelihood_3d_as_2d Hd Ha Hp)|].
  split; [|split].
  - unfold kl, view. simpl ndim. simpl Nat.eqb.
    rewrite (rows_of_cube _ H2 Rp), (rows_of_cube _ H2 Rq). reflexivity.
  - unfold entropy, view. simpl ndim. simpl Nat.eqb.
    rewrite (rows_of_cube _ H2 Rp). reflexivity.
  - unfold sample, reshape. simpl ndim. simpl Nat.eqb.
    rewrite (Nat.mul_comm d 2), (rows_of_cube _ H2 Rp). reflexivity.
Qed.

Lemma reshaping_methods_agree_on_rank3_witness :
  (0 < 1)%nat
  /\ shape3 1 2 1 [[[0]; [3]]]
  /\ shape3 1 2 (2 * 1) [[[0; 1]; [1; 2]]]
  /\ shape3 1 2 (2 * 1) [[[1; 2]; [0; 1]]]
  /\ (loglikelihood 1 (T3 [[[0]; [3]]]) (T3 [[[0; 1]; [1; 2]]])
      = loglikelihood 1 (T2 (concat [[[0]; [3]]])) (T2 (concat [[[0; 1]; [1; 2]]]))
      /\ likelihood 1 (T3 [[[0]; [3]]]) (T3 [[[0; 1]; [1; 2]]])
         = likelihood 1 (T2 (concat [[[0]; [3]]])) (T2 (concat [[[0; 1]; [1; 2]]]))
      /\ kl 1 (T3 [[[0; 1]; [1; 2]]]) (T3 [[[1; 2]; [0; 1]]])
         = kl 1 (T2 (concat [[[0; 1]; [1; 2]]])) (T2 (concat [[[1; 2]; [0; 1]]]))
      /\ entropy 1 (T3 [[[0; 1]; [1; 2]]])
         = entropy 1 (T2 (concat [[[0; 1]; [1; 2]]]))
      /\ sample (fun i => INR i) 1 (T3 [[[0; 1]; [1; 2]]])
         = sample (fun i => INR i) 1 (T2 (concat [[[0; 1]; [1; 2]]]))).
Proof.
  assert (Hd : (0 < 1)%nat) by lia.
  assert (Ha : shape3 1 2 1 [[[0]; [3]]])
    by (split; [reflexivity | repeat constructor]).
  assert (Hp : shape3 1 2 (2 * 1) [[[0; 1]; [1; 2]]])
    by (split; [reflexivity | repeat constructor]).
  assert (Hq : shape3 1 2 (2 * 1) [[[1; 2]; [0; 1]]])
    by (split; [reflexivity | repeat constructor]).
  split; [exact Hd|]. split; [exact Ha|]. split; [exact Hp|]. split; [exact Hq|].
  exact (@reshaping_methods_agree_on_rank3 (fun i => INR i) 1 1 2 _ _ _
           Hd Ha Hp Hq).
Defined.



End DiagGaussMore.

(** ** More on [PPOModel] *)

Module PPOMoreFacts.

Import PPO PPOMore PPOFacts TensorFacts.

Section MoreModelFacts.

Context {N : Networks}.

(** X12.  The filter attribute exists exactly when [use_z_filter] is set, and
    the stem exactly when the policy is recurrent: the constructor
    establishes this, and [z_update], [update_target_z_filter] and
    [update_target_params] keep it for every argument, also when they
    raise. *)
Theorem built_is_invariant :
  (forall sig od ad uz rc cuda seed, built (init sig od ad uz rc cuda seed))
  /\ (forall (m net : PPOModel) (obs : tensor),
         built m ->
         built (snd (z_update obs m))
         /\ built (snd (update_target_z_filter net m))
         /\ built (snd (update_target_params net m))).
Proof.
  split.
  - intros. apply init_built.
  - intros m net obs Hm. split; [|split].
    + apply z_update_keeps_built, Hm.
    + apply update_target_z_filter_keeps_built, Hm.
    + apply update_target_params_keeps_built, Hm.
Qed.

(** X13.  No method changes the hyperparameters, whether it returns or raises;
    [z_update] and [update_target_z_filter] also leave the actor, the
    critic and the stem as they were. *)
Theorem methods_keep_hyperparameters (m net : PPOModel) (obs : tensor) :
  same_config (snd (update_target_params net m)) m
  /\ same_config (snd (update_target_z_filter net m)) m
  /\ same_config (snd (z_update obs m)) m
  /\ (actor (snd (update_target_z_filter net m)) = actor m
      /\ critic (snd (update_target_z_filter net m)) = critic m
      /\ rnn_stem (snd (update_target_z_filter net m)) = rnn_stem m)
  /\ (actor (snd (z_update obs m)) = actor m
      /\ critic (snd (z_update obs m)) = critic m
      /\ rnn_stem (snd (z_update obs m)) = rnn_stem m).
Proof.
  destruct m as [om am um sm cm rm actm crm zm].
  destruct net as [on an un sn cn rn actn crn zn].
  unfold same_config, update_target_params, update_target_z_filter, z_update,
    seq, actor_load_state_dict, critic_load_state_dict, actor_state_dict,
    critic_state_dict, z_filter_load_from, get_z_filter, done, throw,
    set_actor, set_critic, set_rnn_stem, set_z_filter.
  simpl.
  destruct rm as [wm|], rn as [wn|], um, zm as [ym|], zn as [yn|]; simpl;
    repeat split; reflexivity.
Qed.

(** X14.  [update_target_params] is not all-or-nothing: when [self] uses a
    filter and [net] has none, the call raises [AttributeError] after the
    actor, the critic and the stem of [net] have been copied. *)
Theorem update_target_params_raises_after_copying (a b : PPOModel) :
  built a -> built b ->
  if_rnn_policy (rnn_config a) = if_rnn_policy (rnn_config b) ->
  use_z_filter a = true -> use_z_filter b = false ->
  exists a',
    update_target_params b a = (Raise (AttributeError "z_filter"), a')
    /\ actor a' = actor b /\ critic a' = critic b
    /\ rnn_stem a' = rnn_stem b /\ z_filter a' = z_filter a.
Proof.
  intros [Hza Hra] [Hzb Hrb] Hr Hua Hub.
  destruct a as [oa aa ua sa ca ra acta cra za].
  destruct b as [ob ab ub sb cb rb actb crb zb].
  simpl in *.
  destruct za as [ya|]; [|simpl in Hza; congruence].
  destruct zb as [yb|]; [simpl in Hzb; congruence|].
  clear Hza Hzb. subst ua ub.
  unfold update_target_params, seq, actor_load_state_dict,
    critic_load_state_dict, actor_state_dict, critic_state_dict,
    z_filter_load_from, get_z_filter, done, set_actor, set_critic,
    set_rnn_stem, set_z_filter.
  simpl.
  destruct ra as [wa|], rb as [wb|]; simpl in *; try congruence;
    eexists; repeat split; reflexivity.
Qed.

(** X15.  With the filter in use, [update_target_z_filter] puts the filter of
    [net] in place of the one of [self] and changes nothing else; when
    [net] has no filter it raises [AttributeError] and changes
    nothing. *)
Theorem update_target_z_filter_copies_filter (a b : PPOModel) :
  built a -> use_z_filter a = true ->
  match z_filter b with
  | Some z => update_target_z_filter b a = (Ok tt, set_z_filter (Some z) a)
  | None => update_target_z_filter b a = (Raise (AttributeError "z_filter"), a)
  end.
Proof.
  intros [Hz _] Hu.
  unfold update_target_z_filter, z_filter_load_from, get_z_filter.
  rewrite Hu. rewrite Hu in Hz.
  destruct (z_filter a) as [y|]; [|discriminate Hz].
  destruct (z_filter b) as [z|]; reflexivity.
Qed.

(** X16.  After [a.update_target_params(b)] between two models of one
    configuration, a second call, and a call of
    [a.update_target_z_filter(b)], return and change nothing. *)
Theorem update_target_params_twice (a b : PPOModel) :
  built a -> built b -> same_config a b ->
  update_target_params b (snd (update_target_params b a))
  = (Ok tt, snd (update_target_params b a))
  /\ update_target_z_filter b (snd (update_target_params b a))
     = (Ok tt, snd (update_target_params b a)).
Proof.
  intros Ha Hb Hc. rewrite (update_target_params_result Ha Hb Hc). simpl.
  split.
  - apply update_target_params_result; trivial.
    repeat split; reflexivity.
  - destruct Hb as [Hz _].
    destruct b as [ob ab ub sb cb rb actb crb zb].
    unfold update_target_z_filter, z_filter_load_from, get_z_filter, done,
      set_z_filter.
    simpl in *. destruct ub; [|reflexivity].
    destruct zb as [z|]; [reflexivity | discriminate Hz].
Qed.

(** X17.  In recurrent mode without a filter, [forward_actor] raises
    [AssertionError] on an observation that is not of rank 3, before the
    stem is called. *)
Theorem forward_actor_asserts_rank3 (m : PPOModel) (obs : tensor)
        (cells : option Cells) :
  use_z_filter m = false ->
  if_rnn_policy (rnn_config m) = true ->
  ndim obs <> 3%nat ->
  forward_actor m obs cells = Raise AssertionError.
Proof.
  intros Hu Hr Hn. unfold forward_actor. rewrite Hu, Hr. simpl.
  destruct (Nat.eqb_spec (ndim obs) 3) as [E|_]; [contradiction|].
  reflexivity.
Qed.

(** X18.  In feed-forward mode [forward_actor_expose_cells] returns the output
    of [forward_actor] and hands back the cells it was given; the cells
    given to [forward_actor] play no part. *)
Theorem forward_actor_expose_cells_feed_forward
        (m : PPOModel) (obs : tensor) (cells cells' : option Cells) :
  if_rnn_policy (rnn_config m) = false ->
  forward_actor_expose_cells m obs cells
  = fmap (fun action => (action, cells)) (forward_actor m obs cells').
Proof.
  intros Hr. unfold forward_actor_expose_cells, forward_actor, fmap.
  rewrite Hr.
  destruct (use_z_filter m);
    [destruct (get_z_filter m) as [z|e]; simpl; [|reflexivity];
     destruct (zfilter_forward z obs) as [o|e]; simpl; [|reflexivity]
    | simpl];
    match goal with
    | |- context [actor_forward ?s ?w ?o] =>
        destruct (actor_forward s w o); reflexivity
    end.
Qed.

End MoreModelFacts.

Lemma update_target_params_raises_after_copying_witness :
  built (toy_model true 1) /\ built (toy_model false 2)
  /\ if_rnn_policy (rnn_config (toy_model true 1))
     = if_rnn_policy (rnn_config (toy_model false 2))
  /\ use_z_filter (toy_model true 1) = true
  /\ use_z_filter (toy_model false 2) = false
  /\ exists a',
       update_target_params (toy_model false 2) (toy_model true 1)
       = (Raise (AttributeError "z_filter"), a')
       /\ actor a' = actor (toy_model false 2)
       /\ critic a' = critic (toy_model false 2)
       /\ rnn_stem a' = rnn_stem (toy_model false 2)
       /\ z_filter a' = z_filter (toy_model true 1).
Proof.
  assert (Ha : built (toy_model true 1)) by apply init_built.
  assert (Hb : built (toy_model false 2)) by apply init_built.
  split; [exact Ha|]. split; [exact Hb|].
  split; [reflexivity|]. split; [reflexivity|]. split; [reflexivity|].
  exact (@update_target_params_raises_after_copying toy_networks
           (toy_model true 1) (toy_model false 2) Ha Hb
           eq_refl eq_refl eq_refl).
Defined.

Lemma update_target_z_filter_copies_filter_witness :
  built (toy_model true 1) /\ use_z_filter (toy_model true 1) = true
  /\ match z_filter (snd (z_update (T2 [[1; 2; 3]]) (toy_model true 2))) with
     | Some z =>
         update_target_z_filter
           (snd (z_update (T2 [[1; 2; 3]]) (toy_model true 2)))
           (toy_model true 1)
         = (Ok tt, set_z_filter (Some z) (toy_model true 1))
     | None =>
         update_target_z_filter
           (snd (z_update (T2 [[1; 2; 3]]) (toy_model true 2)))
           (toy_model true 1)
         = (Raise (AttributeError "z_filter"), toy_model true 1)
     end.
Proof.
  assert (Ha : built (toy_model true 1)) by apply init_built.
  split; [exact Ha|]. split; [reflexivity|].
  exact (@update_target_z_filter_copies_filter toy_networks
           (toy_model true 1)
           (snd (z_update (T2 [[1; 2; 3]]) (toy_model true 2))) Ha eq_refl).
Defined.

Lemma update_target_params_twice_witness :
  built (toy_model true 1) /\ built (toy_model true 2)
  /\ same_config (toy_model true 1) (toy_model true 2)
  /\ update_target_params (toy_model true 2)
       (snd (update_target_params (toy_model true 2) (toy_model true 1)))
     = (Ok tt, snd (update_target_params (toy_model true 2) (toy_model true 1)))
  /\ update_target_z_filter (toy_model true 2)
       (snd (update_target_params (toy_model true 2) (toy_model true 1)))
     = (Ok tt, snd (update_target_params (toy_model true 2) (toy_model true 1))).
Proof.
  assert (Ha : built (toy_model true 1)) by apply init_built.
  assert (Hb : built (toy_model true 2)) by apply init_built.
  assert (Hc : same_config (toy_model true 1) (toy_model true 2))
    by (repeat split; reflexivity).
  split; [exact Ha|]. split; [exact Hb|]. split; [exact Hc|].
  exact (@update_target_params_twice toy_networks _ _ Ha Hb Hc).
Defined.

Lemma forward_actor_asserts_rank3_witness :
  use_z_filter (toy_model false 1) = false
  /\ if_rnn_policy (rnn_config (toy_model false 1)) = true
  /\ ndim (T2 [[1; 2; 3]]) <> 3%nat
  /\ forward_actor (toy_model false 1) (T2 [[1; 2; 3]]) None
     = Raise AssertionError.
Proof.
  assert (Hn : ndim (T2 [[1; 2; 3]]) <> 3%nat) by (simpl; lia).
  split; [reflexivity|]. split; [reflexivity|]. split; [exact Hn|].
  exact (@forward_actor_asserts_rank3 toy_networks (toy_model false 1)
           (T2 [[1; 2; 3]]) None eq_refl eq_refl Hn).
Defined.

Lemma forward_actor_expose_cells_feed_forward_witness :
  if_rnn_policy (rnn_config (toy_flat_model true 1)) = false
  /\ forward_actor_expose_cells (toy_flat_model true 1) (T2 [[1; 2; 3]]) (Some tt)
     = fmap (fun action => (action, Some tt))
            (forward_actor (toy_flat_model true 1) (T2 [[1; 2; 3]]) None).
Proof.
  split; [reflexivity|].
  exact (@forward_actor_expose_cells_feed_forward toy_networks
           (toy_flat_model true 1) (T2 [[1; 2; 3]]) (Some tt) None eq_refl).
Defined.

End PPOMoreFacts.

(** ** The layout of the recurrent forward passes *)

Module ForwardShapes.

Import PPO PPOFacts TensorFacts.

Lemma length_take_rows {A : Type} (n k : nat) : forall l : list A,
  length (take_rows n k l) = n.
Proof.
  induction n as [|n IH]; intros l; simpl; [reflexivity|].
  rewrite IH. reflexivity.
Qed.

Lemma take_rows_widths {A : Type} (n k : nat) : forall l : list A,
  length l = (n * k)%nat ->
  Forall (fun r => length r = k) (take_rows n k l).
Proof.
  induction n as [|n IH]; intros l Hl; simpl; constructor.
  - rewrite length_firstn. simpl in Hl. lia.
  - apply IH. rewrite length_skipn. simpl in Hl. lia.
Qed.

Lemma Forall_firstn_skipn {A : Type} (P : A -> Prop) (n : nat) (l : list A) :
  Forall P l -> Forall P (firstn n l) /\ Forall P (skipn n l).
Proof.
  intros H. rewrite <- (firstn_skipn n l) in H.
  apply Forall_app in H. exact H.
Qed.

Lemma take_rows_shape3 (b t k : nat) (l : vec) :
  length l = (b * t * k)%nat ->
  shape3 b t k (take_rows b t (take_rows (b * t) k l)).
Proof.
  intros Hl. split; [apply length_take_rows|].
  assert (Hw := take_rows_widths (b * t) k l Hl).
  assert (Hn := length_take_rows (b * t) k l).
  revert Hw Hn. generalize (take_rows (b * t) k l). clear Hl l.
  induction b as [|b IH]; intros rows Hw Hn; simpl; constructor.
  - split.
    + rewrite length_firstn. simpl in Hn. lia.
    + apply (Forall_firstn_skipn t Hw).
  - apply IH.
    + apply (Forall_firstn_skipn t Hw).
    + rewrite length_skipn. simpl in Hn. lia.
Qed.

(** [view(b, t, k)] returns a tensor of that shape, if it returns. *)
Lemma view3_shape (b t : nat) (k : option nat) (x v : tensor) :
  view3 b t k x = Ok v ->
  exists kk c, v = T3 c /\ shape3 b t kk c
               /\ match k with Some k0 => kk = k0 | None => True end.
Proof.
  unfold view3. destruct k as [k|].
  - destruct (Nat.eqb_spec (length (flat x)) (b * t * k)) as [E|_];
      [|discriminate].
    intros [= <-]. exists k. eexists. split; [reflexivity|].
    split; [apply take_rows_shape3, E | reflexivity].
  - destruct (Nat.eqb_spec (b * t) 0) as [_|Hbt]; [discriminate|].
    destruct (Nat.eqb_spec (length (flat x) mod (b * t)) 0) as [E|_];
      [|discriminate].
    intros [= <-]. exists (length (flat x) / (b * t))%nat. eexists.
    split; [reflexivity|]. split; [|exact I].
    apply take_rows_shape3.
    apply Nat.Div0.div_exact in E. lia.
Qed.

Section Shapes.

Context {N : Networks}.

(** X19.  In recurrent mode, what [forward_critic] returns has rank 3 with a
    last axis of size 1, and what [forward_actor] returns has rank 3. *)
Theorem recurrent_forward_passes_return_rank3
        (m : PPOModel) (obs : tensor) (cells : option Cells) :
  if_rnn_policy (rnn_config m) = true ->
  (forall v, forward_critic m obs cells = Ok v ->
             exists b t c, v = T3 c /\ shape3 b t 1 c)
  /\ (forall v, forward_actor m obs cells = Ok v ->
                exists b t k c, v = T3 c /\ shape3 b t k c).
Proof.
  intros Hr. split; intros v; [unfold forward_critic | unfold forward_actor];
    rewrite Hr;
    repeat match goal with
           | |- context [Py.bind ?r _] =>
               match r with
               | Py.bind _ _ => fail 1
               | _ => destruct r eqn:?; cbn [Py.bind fst snd];
                      try discriminate
               end
           | |- context [if ?c then _ else _] =>
               destruct c eqn:?; cbn [Py.bind fst snd]; try discriminate
           end;
    intros Hv; apply view3_shape in Hv;
    destruct Hv as (kk & c & -> & Hs & Hk);
    try subst kk; eauto 10.
Qed.

End Shapes.

Lemma recurrent_forward_passes_return_rank3_witness :
  if_rnn_policy (rnn_config (toy_model false 1)) = true
  /\ (forall v, forward_critic (toy_model false 1) (T3 [[[5]; [7]]]) None = Ok v ->
                exists b t c, v = T3 c /\ shape3 b t 1 c)
  /\ (forall v, forward_actor (toy_model false 1) (T3 [[[5]; [7]]]) None = Ok v ->
                exists b t k c, v = T3 c /\ shape3 b t k c).
Proof.
  split; [reflexivity|].
  exact (@recurrent_forward_passes_return_rank3 toy_networks
           (toy_model false 1) (T3 [[[5]; [7]]]) None eq_refl).
Defined.

(** On the small instance both passes do return on an observation of
    shape (1, 2, 1). *)
Example toy_forward_critic_returns :
  returns (forward_critic (toy_model false 1) (T3 [[[5]; [7]]]) None)
  /\ returns (forward_actor (toy_model false 1) (T3 [[[5]; [7]]]) None).
Proof. split; eexists; reflexivity. Qed.

End ForwardShapes.

(** ** More on the evaluation loop *)

Module EvalLoopMoreFacts.

Import EvalLoop EvalLoopMore EvalLoopFacts.
#[local] Open Scope nat_scope.

Lemma in_turns_cons (e : event) (h : list event) :
  in_turns h ->
  (e = Act -> exists h', h = Reset :: h' \/ h = Step false :: h') ->
  (forall d, e = Step d -> exists h', h = Act :: h') ->
  in_turns (e :: h).
Proof.
  intros [T1 T2] H1 H2. split.
  - intros pre post E.
    destruct (@cons_app_cases _ _ _ _ _ E) as [[-> E'] | (pre' & -> & E')].
    + injection E' as <- ->. apply H1. reflexivity.
    + apply (T1 _ _ E').
  - intros pre d post E.
    destruct (@cons_app_cases _ _ _ _ _ E) as [[-> E'] | (pre' & -> & E')].
    + injection E' as <- ->. apply (H2 d). reflexivity.
    + apply (T2 _ _ _ E').
Qed.

Lemma calls_rev (kind : event -> bool) (h : list event) :
  calls kind (rev h) = calls kind h.
Proof. unfold calls. rewrite filter_rev, length_rev. reflexivity. Qed.

Section MoreLoopFacts.

Context {C : Collaborators}.

Lemma initial_in_turns_tallied (w : World) :
  in_turns (history (initial w)) /\ tallied (initial w).
Proof.
  split; [split|].
  - intros pre post E. destruct pre; discriminate E.
  - intros pre d post E. destruct pre; discriminate E.
  - unfold tallied. simpl. repeat split; reflexivity.
Qed.

Lemma exec_in_turns_tallied (s s' : state) :
  invariant s -> in_turns (history s) -> tallied s ->
  exec s = Some s' ->
  in_turns (history s') /\ tallied s'.
Proof.
  intros [Hc _] Ht Hn. unfold coupled in Hc. unfold tallied in Hn.
  unfold exec. destruct (pc s) eqn:Epc.
  - intros [= <-]. split.
    + simpl. apply in_turns_cons; trivial; discriminate.
    + unfold tallied, calls in *. simpl. lia.
  - intros [= <-]. split.
    + simpl. apply in_turns_cons; trivial; discriminate.
    + unfold tallied, calls in *. simpl. lia.
  - destruct Hc as [_ (h & Hh)].
    destruct (obs s) as [o|]; [|discriminate].
    intros [= <-]. split.
    + simpl. apply in_turns_cons; trivial; [|discriminate].
      intros _. exists h. exact Hh.
    + unfold tallied, calls in *. simpl. lia.
  - destruct Hc as [_ (h & Hh)].
    destruct (action s) as [a|]; [|discriminate].
    destruct (env_step a (world s)) as [[[[o rew] d] i] w']. simpl.
    intros [= <-]. split.
    + simpl. apply in_turns_cons; trivial; [discriminate|].
      intros _ _. exists h. exact Hh.
    + unfold tallied, calls in *. simpl.
      split; [destruct d; simpl; lia|].
      exists d. split; [reflexivity|].
      destruct d; simpl; lia.
  - destruct Hn as [Ha (d & Hd & Hn)]. rewrite Hd.
    intros [= <-]. split; [exact Ht|].
    unfold tallied. simpl. destruct d; simpl; lia.
  - intros [= <-]. split.
    + simpl. apply in_turns_cons; trivial; discriminate.
    + unfold tallied, calls in *. simpl. lia.
  - intros [= <-]. split.
    + simpl. apply in_turns_cons; trivial; discriminate.
    + unfold tallied, calls in *. simpl. lia.
Qed.

Lemma run_in_turns_tallied (n : nat) : forall s,
  invariant s -> in_turns (history s) -> tallied s ->
  in_turns (history (run n s)) /\ tallied (run n s).
Proof.
  induction n as [|n IH]; intros s Hi Ht Hn; [split; assumption|].
  simpl. destruct (exec_invariant Hi) as (s' & E & Hi' & _).
  rewrite E. destruct (exec_in_turns_tallied Hi Ht Hn E) as [Ht' Hn'].
  apply IH; assumption.
Qed.

(** X20.  Agent and environment take turns: in the calls made by any number of
    statements, the agent acts only right after a reset or right after a
    step that did not end the episode, and the environment steps only
    right after the agent acted. *)
Theorem agent_and_environment_take_turns (w : World) (n : nat) :
  (forall pre post,
      trace n w = pre ++ Act :: post ->
      exists pre', pre = pre' ++ [Reset] \/ pre = pre' ++ [Step false])
  /\ (forall pre d post,
         trace n w = pre ++ Step d :: post ->
         exists pre', pre = pre' ++ [Act]).
Proof.
  destruct (initial_in_turns_tallied w) as [Ht0 Hn0].
  destruct (run_in_turns_tallied n (initial_invariant w) Ht0 Hn0)
    as [[T1 T2] _].
  unfold trace. split.
  - intros pre post E. apply rev_decomp in E.
    destruct (T1 _ _ E) as (post' & [E' | E']);
      exists (rev post'); [left | right];
      rewrite <- (rev_involutive pre), E'; reflexivity.
  - intros pre d post E. apply rev_decomp in E.
    destruct (T2 _ _ _ E) as (post' & E').
    exists (rev post'). rewrite <- (rev_involutive pre), E'. reflexivity.
Qed.

(** X21.  One pull and one reset per episode: at every point of the run the
    number of pulls is the number of steps that ended an episode, or one
    more; it is the number of resets, or one more; and the number of
    actions is the number of steps, or one more. *)
Theorem one_pull_per_episode (w : World) (n : nat) :
  calls is_last_step (trace n w) <= calls is_pull (trace n w)
    <= calls is_last_step (trace n w) + 1
  /\ calls is_reset (trace n w) <= calls is_pull (trace n w)
       <= calls is_reset (trace n w) + 1
  /\ calls is_step (trace n w) <= calls is_act (trace n w)
       <= calls is_step (trace n w) + 1.
Proof.
  destruct (initial_in_turns_tallied w) as [Ht0 Hn0].
  destruct (run_in_turns_tallied n (initial_invariant w) Ht0 Hn0)
    as [_ Hn].
  unfold trace. rewrite !calls_rev.
  unfold tallied in Hn. cbv zeta in Hn.
  destruct (pc (run n (initial w)));
    lazymatch type of Hn with
    | _ /\ (exists _, _) => destruct Hn as [Ha (d & _ & Hn)]; destruct d
    | _ => idtac
    end; lia.
Qed.

End MoreLoopFacts.

End EvalLoopMoreFacts.

(** ** [loglikelihood] and the Gaussian density *)

Module GaussianFacts.

Import TensorFacts DiagGauss DiagGaussFacts Gaussian.
Open Scope R_scope.

#[local] Arguments pow : simpl never.
#[local] Arguments Nat.mul : simpl never.
#[local] Arguments INR : simpl never.

Lemma ln_sqrt_half (x : R) : 0 < x -> ln (sqrt x) = ln x / 2.
Proof.
  intros Hx. pose proof (sqrt_lt_R0 x Hx) as Hs.
  assert (E : ln x = ln (sqrt x) + ln (sqrt x)).
  { rewrite <- ln_mult by assumption. rewrite sqrt_sqrt by lra. reflexivity. }
  lra.
Qed.

Lemma normal_pdf_pos (m s x : R) : 0 < s -> 0 < normal_pdf m s x.
Proof.
  intros Hs. unfold normal_pdf.
  assert (0 < sqrt (2 * PI)) by (apply sqrt_lt_R0; pose proof PI_RGT_0; lra).
  apply Rmult_lt_0_compat; [|apply exp_pos].
  apply Rinv_0_lt_compat. apply Rmult_lt_0_compat; assumption.
Qed.

Lemma ln_normal_pdf (m s x : R) :
  0 < s ->
  ln (normal_pdf m s x)
  = - 0.5 * ((x - m) / s) ^ 2 - 0.5 * ln (2.0 * PI) - ln s.
Proof.
  intros Hs. unfold normal_pdf.
  assert (H2pi : 0 < 2 * PI) by (pose proof PI_RGT_0; lra).
  assert (Hq : 0 < sqrt (2 * PI)) by (apply sqrt_lt_R0, H2pi).
  assert (Hp : 0 < s * sqrt (2 * PI)) by (apply Rmult_lt_0_compat; assumption).
  rewrite ln_mult; [|apply Rinv_0_lt_compat, Hp | apply exp_pos].
  rewrite ln_Rinv, ln_exp, ln_mult, (ln_sqrt_half H2pi) by assumption.
  rewrite two_point_zero, half_is_inv2. lra.
Qed.

Lemma density_pos (s : vec) : forall a m : vec,
  Forall (fun x => 0 < x) s -> 0 < density a m s.
Proof.
  induction s as [|sd s IH]; intros [|x a] [|mu m] Hs; simpl; try lra.
  inversion Hs; subst.
  apply Rmult_lt_0_compat; [apply normal_pdf_pos; assumption | apply IH; assumption].
Qed.

Lemma ln_density_parts (s : vec) : forall a m : vec,
  length a = length s -> length m = length s ->
  Forall (fun x => 0 < x) s ->
  ln (density a m s)
  = - 0.5 * vsum (map (fun x => x ^ 2) (zipw Rdiv (zipw Rminus a m) s))
    - 0.5 * ln (2.0 * PI) * INR (length s)
    - vsum (map ln s).
Proof.
  induction s as [|sd s IH]; intros [|x a] [|mu m] La Lm Hs;
    simpl in La, Lm; try discriminate.
  - simpl. unfold INR. rewrite ln_1. lra.
  - inversion Hs as [|? ? Hsd Hs']; subst.
    cbn [density]. rewrite ln_mult;
      [|apply normal_pdf_pos, Hsd | apply density_pos, Hs'].
    rewrite (ln_normal_pdf mu x Hsd), (IH a m ltac:(lia) ltac:(lia) Hs').
    cbn [zipw combine map fst snd vsum fold_right length].
    fold (zipw Rminus a m). fold (zipw Rdiv (zipw Rminus a m) s).
    fold (vsum (map (fun x => x ^ 2) (zipw Rdiv (zipw Rminus a m) s))).
    fold (vsum (map ln s)).
    rewrite S_INR. lra.
Qed.

(** One row of [loglikelihood] is the logarithm of the density. *)
Lemma loglikelihood_row_is_ln_density (d : nat) (a r : vec) :
  length a = d -> length r = (2 * d)%nat ->
  Forall (fun x => 0 < x) (skipn d r) ->
  loglikelihood_row d a r = ln (density a (firstn d r) (skipn d r)).
Proof.
  intros La Lr Hs.
  assert (Ls : length (skipn d r) = d) by (rewrite length_skipn; lia).
  rewrite ln_density_parts; trivial.
  - rewrite Ls. reflexivity.
  - lia.
  - rewrite length_firstn. lia.
Qed.

(** X1.  On a batch of actions of shape [(n, d)] and a record of shape
    [(n, 2d)] with positive standard deviations, [loglikelihood] returns,
    row by row, the logarithm of the density of the diagonal Gaussian at
    the action, and [likelihood] the larger of that density and
    [1e-5]. *)
Theorem loglikelihood_is_log_density (d n : nat) (a p : mat) :
  shape2 n d a -> shape2 n (2 * d) p -> valid_prob2 d p ->
  loglikelihood d (T2 a) (T2 p)
  = Ok (T2 (map (fun ar => [ln (density (fst ar) (firstn d (snd ar))
                                        (skipn d (snd ar)))])
                (combine a p)))
  /\ likelihood d (T2 a) (T2 p)
     = Ok (T2 (map (fun ar => [Rmax (density (fst ar) (firstn d (snd ar))
                                             (skipn d (snd ar))) 1e-5])
                   (combine a p))).
Proof.
  intros Ha Hp [_ Hpos].
  assert (E : loglikelihood_table d (T2 a) (T2 p)
              = map (fun ar => [ln (density (fst ar) (firstn d (snd ar))
                                            (skipn d (snd ar)))])
                    (combine a p)).
  { unfold loglikelihood_table. simpl batch_rows.
    apply map_ext_in. intros [x r] Hin. simpl. f_equal.
    destruct Ha as [_ Ha], Hp as [_ Hp].
    rewrite Forall_forall in Ha, Hp, Hpos.
    apply loglikelihood_row_is_ln_density.
    - apply Ha. eapply in_combine_l, Hin.
    - apply Hp. eapply in_combine_r, Hin.
    - apply Hpos. eapply in_combine_r, Hin. }
  assert (L : loglikelihood d (T2 a) (T2 p)
              = Ok (T2 (loglikelihood_table d (T2 a) (T2 p))))
    by apply (loglikelihood_2d Ha Hp).
  split; [rewrite L, E; reflexivity|].
  rewrite likelihood_clamps, L, E. unfold fmap. simpl.
  rewrite map_map. do 2 f_equal.
  apply map_ext_in. intros [x r] Hin. simpl. f_equal.
  rewrite exp_ln; [reflexivity|].
  apply density_pos. rewrite Forall_forall in Hpos.
  apply Hpos. eapply in_combine_r, Hin.
Qed.

Lemma loglikelihood_is_log_density_witness :
  shape2 2 1 [[0]; [3]] /\ shape2 2 (2 * 1) [[0; 1]; [1; 2]]
  /\ valid_prob2 1 [[0; 1]; [1; 2]]
  /\ loglikelihood 1 (T2 [[0]; [3]]) (T2 [[0; 1]; [1; 2]])
     = Ok (T2 (map (fun ar => [ln (density (fst ar) (firstn 1 (snd ar))
                                           (skipn 1 (snd ar)))])
                   (combine [[0]; [3]] [[0; 1]; [1; 2]])))
  /\ likelihood 1 (T2 [[0]; [3]]) (T2 [[0; 1]; [1; 2]])
     = Ok (T2 (map (fun ar => [Rmax (density (fst ar) (firstn 1 (snd ar))
                                             (skipn 1 (snd ar))) 1e-5])
                   (combine [[0]; [3]] [[0; 1]; [1; 2]]))).
Proof.
  assert (Ha : shape2 2 1 [[0]; [3]])
    by (split; [reflexivity | repeat constructor]).
  assert (Hp : shape2 2 (2 * 1) [[0; 1]; [1; 2]])
    by (split; [reflexivity | repeat constructor]).
  assert (Hv : valid_prob2 1 [[0; 1]; [1; 2]])
    by (split; repeat constructor; simpl; lra).
  split; [exact Ha|]. split; [exact Hp|]. split; [exact Hv|].
  exact (@loglikelihood_is_log_density 1 2 _ _ Ha Hp Hv).
Defined.

End GaussianFacts.
